(** * travel_api: flight_search.py

    A shallow embedding of the date-pair generator, the day/time filter,
    the stopover limit evaluator, the offer ranker, the search driver and
    the presenter of [src/flight_search.py], followed by the theorems that
    settle the properties stated about them.

    Conventions.
    - Python exceptions are values of [exn]; a computation that may raise
      has type [res A].  Code that prints or appends to the global
      accumulator runs in [io], which threads a [world] and keeps the
      output produced before an exception.
    - Python [int] is [Z]; Python [float] is IEEE binary64, taken from the
      primitive floats of the standard library.
    - Python [str] is [string]; the library functions that read text
      ([int], [float], [datetime.fromisoformat]) are given for ASCII text.
    - A [date] is represented by its proleptic Gregorian ordinal, the
      number [date.toordinal()] returns. *)

From Stdlib Require Import ZArith Lia String Ascii List Bool Floats.
From stdpp Require Import gmap strings list sorting.
Import ListNotations.
Local Open Scope Z_scope.

(** ** Python builtins and library functions used by the program *)

Module Py.

(** Exceptions.  [Unmodelled] marks an argument of a library function that
    lies outside the profile given here for that function; it is never
    caught by the program. *)
Inductive exn : Type :=
  | ValueError
  | TypeError
  | IndexError
  | KeyError
  | AttributeError
  | OverflowError
  | ZeroDivisionError
  | SystemExit (msg : string)
  | Unmodelled.

Inductive res (A : Type) : Type :=
  | Ok (a : A)
  | Raise (e : exn).
Arguments Ok {A} a.
Arguments Raise {A} e.

#[global] Instance res_ret : MRet res := @Ok.
#[global] Instance res_bind : MBind res :=
  λ A B f m, match m with Ok a => f a | Raise e => Raise e end.
#[global] Instance res_fmap : FMap res :=
  λ A B f m, match m with Ok a => Ok (f a) | Raise e => Raise e end.

Definition is_ok {A} (r : res A) : bool :=
  match r with Ok _ => true | Raise _ => false end.

(** [try: ... except ValueError: handler] *)
Definition except_ValueError {A} (body : res A) (handler : res A) : res A :=
  match body with
  | Raise ValueError => handler
  | r => r
  end.

(** *** Characters and strings *)

Definition is_digit (c : ascii) : bool :=
  (48 <=? Z.of_N (N_of_ascii c)) && (Z.of_N (N_of_ascii c) <=? 57).

Definition digit_val (c : ascii) : Z := Z.of_N (N_of_ascii c) - 48.

(** ASCII characters for which [str.isspace] holds. *)
Definition is_space (c : ascii) : bool :=
  let n := Z.of_N (N_of_ascii c) in
  ((9 <=? n) && (n <=? 13)) || ((28 <=? n) && (n <=? 32)).

Definition is_empty (s : string) : bool :=
  match s with EmptyString => true | String _ _ => false end.

(** [c in s] for a one-character [c]. *)
Fixpoint contains (c : ascii) (s : string) : bool :=
  match s with
  | EmptyString => false
  | String x s' => Ascii.eqb x c || contains c s'
  end.

Fixpoint lstrip (s : string) : string :=
  match s with
  | String c s' => if is_space c then lstrip s' else s
  | EmptyString => EmptyString
  end.

Fixpoint rstrip (s : string) : string :=
  match s with
  | EmptyString => EmptyString
  | String c s' =>
      let r := rstrip s' in
      if is_space c && is_empty r then EmptyString else String c r
  end.

(** [s.strip()] *)
Definition strip (s : string) : string := rstrip (lstrip s).

(** [s.rstrip(c)] for a one-character [c]: every trailing [c] goes. *)
Fixpoint rstrip_char (c : ascii) (s : string) : string :=
  match s with
  | EmptyString => EmptyString
  | String x s' =>
      let r := rstrip_char c s' in
      if Ascii.eqb x c && is_empty r then EmptyString else String x r
  end.

(** [s.split(c)] for a one-character separator. *)
Fixpoint split (c : ascii) (s : string) : list string :=
  match s with
  | EmptyString => [EmptyString]
  | String x s' =>
      if Ascii.eqb x c then EmptyString :: split c s'
      else match split c s' with
           | h :: t => String x h :: t
           | [] => [String x EmptyString]
           end
  end.

(** [s.split(c, 1)] *)
Fixpoint split1 (c : ascii) (s : string) : list string :=
  match s with
  | EmptyString => [EmptyString]
  | String x s' =>
      if Ascii.eqb x c then [EmptyString; s']
      else match split1 c s' with
           | h :: t => String x h :: t
           | [] => [String x EmptyString]
           end
  end.

Definition lower_char (c : ascii) : ascii :=
  let n := N_of_ascii c in
  if ((65 <=? n) && (n <=? 90))%N then ascii_of_N (n + 32) else c.

Fixpoint lower (s : string) : string :=
  match s with
  | EmptyString => EmptyString
  | String c s' => String (lower_char c) (lower s')
  end.

(** [s[:n]] *)
Fixpoint take_str (n : nat) (s : string) : string :=
  match n, s with
  | S n', String c s' => String c (take_str n' s')
  | _, _ => EmptyString
  end.

(** The longest prefix of decimal digits, and what follows it. *)
Fixpoint span_digits (s : string) : string * string :=
  match s with
  | String c s' =>
      if is_digit c then
        let '(ds, rest) := span_digits s' in (String c ds, rest)
      else (EmptyString, s)
  | EmptyString => (EmptyString, EmptyString)
  end.

(** *** [int(s)] on text: optional surrounding whitespace, an optional
    sign, then decimal digits, where single underscores may separate
    digits. *)
Fixpoint int_digits (acc : Z) (after_digit : bool) (s : string) : option Z :=
  match s with
  | EmptyString => if after_digit then Some acc else None
  | String c s' =>
      if is_digit c then int_digits (10 * acc + digit_val c) true s'
      else if Ascii.eqb c "_" then
        if after_digit then int_digits acc false s' else None
      else None
  end.

Definition int_of_str (s : string) : res Z :=
  let body := strip s in
  let '(neg, ds) :=
    match body with
    | String "-" r => (true, r)
    | String "+" r => (false, r)
    | _ => (false, body)
    end in
  match int_digits 0 false ds with
  | Some n => Ok (if neg then - n else n)
  | None => Raise ValueError
  end.

(** *** Floats *)

(** The binary64 value nearest to [m * 2^e], ties to even. *)
Definition nearest (m e : Z) : float :=
  SF2Prim (binary_normalize prec emax m e false).

(** [float(z)] for an [int]: correctly rounded, [OverflowError] when the
    magnitude is too large. *)
Definition float_of_int (z : Z) : res float :=
  let f := nearest z 0 in
  if PrimFloat.is_infinity f then Raise OverflowError else Ok f.

(** [a / b] on two [int]s: the quotient correctly rounded.  The quotient is
    computed with more than 64 significant bits and a sticky bit, which
    [nearest] then rounds once. *)
Definition int_truediv (a b : Z) : res float :=
  if b =? 0 then Raise ZeroDivisionError
  else
    let n := Z.abs a in
    let d := Z.abs b in
    let k := Z.max 0 (Z.log2 d + 66 - Z.log2 n) in
    let q := (n * 2 ^ k) / d in
    let r := (n * 2 ^ k) mod d in
    let m := 2 * q + (if r =? 0 then 0 else 1) in
    let f := nearest (Z.sgn a * Z.sgn b * m) (- k - 1) in
    if PrimFloat.is_infinity f then Raise OverflowError else Ok f.

(** [float(s)] on text, for plain decimal numerals
    [[+-]digits[.digits]]: the decimal value correctly rounded.  Exponents,
    [inf], [nan], underscores and surrounding whitespace are outside this
    profile. *)
Fixpoint digits_acc (acc : Z) (s : string) : Z :=
  match s with
  | EmptyString => acc
  | String c s' => digits_acc (10 * acc + digit_val c) s'
  end.

Definition float_of_str (s : string) : res float :=
  let '(neg, body) :=
    match s with
    | String "-" r => (true, r)
    | String "+" r => (false, r)
    | _ => (false, s)
    end in
  let '(ip, rest) := span_digits body in
  if is_empty ip then Raise Unmodelled
  else
    let frac :=
      match rest with
      | EmptyString => Some EmptyString
      | String "." r =>
          let '(fp, rest') := span_digits r in
          if is_empty rest' then Some fp else None
      | _ => None
      end in
    match frac with
    | None => Raise Unmodelled
    | Some fp =>
        let n := digits_acc (digits_acc 0 ip) fp in
        let den := 10 ^ Z.of_nat (String.length fp) in
        f ← int_truediv n den;
        Ok (if neg then PrimFloat.opp f else f)
    end.

(** *** Lists *)

(** [l[0]] and [l[-1]] *)
Definition index0 {A} (l : list A) : res A :=
  match l with
  | x :: _ => Ok x
  | [] => Raise IndexError
  end.

Definition index_last {A} (l : list A) : res A :=
  match last l with
  | Some x => Ok x
  | None => Raise IndexError
  end.

(** [range(n)] and [range(a, b)] *)
Definition range (n : Z) : list Z := seqZ 0 n.
Definition range2 (a b : Z) : list Z := seqZ a (b - a).

(** A [for] loop whose body may raise, threading the loop state. *)
Fixpoint for_ {X S} (xs : list X) (body : X → S → res S) (s : S) : res S :=
  match xs with
  | [] => Ok s
  | x :: xs' => s' ← body x s; for_ xs' body s'
  end.

(** [[f(x) for x in xs]], left to right. *)
Fixpoint map_res {X Y} (f : X → res Y) (xs : list X) : res (list Y) :=
  match xs with
  | [] => Ok []
  | x :: xs' => y ← f x; ys ← map_res f xs'; Ok (y :: ys)
  end.

(** *** [sorted(l, key=k)]

    [sorted] computes the key of every element first, left to right, and
    then sorts stably with [<] on the keys.  The stable sort is given as an
    insertion from the right: an element goes before the first element of
    the already sorted tail whose key is not smaller than its own.  Whenever
    [<] is a strict weak order on the keys this is the one stable sorted
    permutation, the list CPython's sort returns. *)
Section Sorted.
Context {K A : Type} (lt : K → K → bool).

Fixpoint insert_by (x : K * A) (l : list (K * A)) : list (K * A) :=
  match l with
  | [] => [x]
  | y :: l' => if lt (fst y) (fst x) then y :: insert_by x l' else x :: l
  end.

Fixpoint sort_keyed (l : list (K * A)) : list (K * A) :=
  match l with
  | [] => []
  | x :: l' => insert_by x (sort_keyed l')
  end.

Definition sorted (key : A → res K) (l : list A) : res (list A) :=
  keys ← map_res key l;
  Ok (map snd (sort_keyed (zip keys l))).
End Sorted.

(** *** [datetime]: dates, times, ISO text *)

Record date : Type := Date { toordinal : Z }.
Record time : Type := Time { hour : Z; minute : Z; second : Z }.
Record datetime : Type := DateTime { dt_date : date; dt_time : time }.

Definition MAXORDINAL : Z := 3652059.   (* date(9999, 12, 31).toordinal() *)

Definition is_leap (y : Z) : bool :=
  (y mod 4 =? 0) && (negb (y mod 100 =? 0) || (y mod 400 =? 0)).

Definition days_in_month (y m : Z) : Z :=
  match m with
  | 1 => 31 | 2 => if is_leap y then 29 else 28 | 3 => 31 | 4 => 30
  | 5 => 31 | 6 => 30 | 7 => 31 | 8 => 31 | 9 => 30 | 10 => 31
  | 11 => 30 | 12 => 31
  | _ => 0
  end.

(** Days before the first of month [m] in a year that is not leap. *)
Definition days_before_month_common (m : Z) : Z :=
  match m with
  | 1 => 0 | 2 => 31 | 3 => 59 | 4 => 90 | 5 => 120 | 6 => 151
  | 7 => 181 | 8 => 212 | 9 => 243 | 10 => 273 | 11 => 304 | 12 => 334
  | _ => 0
  end.

Definition days_before_month (y m : Z) : Z :=
  days_before_month_common m + (if (2 <? m) && is_leap y then 1 else 0).

Definition days_before_year (y : Z) : Z :=
  let p := y - 1 in p * 365 + p / 4 - p / 100 + p / 400.

Definition ymd2ord (y m d : Z) : Z :=
  days_before_year y + days_before_month y m + d.

Definition days_in_month_common (m : Z) : Z :=
  match m with
  | 1 => 31 | 2 => 28 | 3 => 31 | 4 => 30 | 5 => 31 | 6 => 30
  | 7 => 31 | 8 => 31 | 9 => 30 | 10 => 31 | 11 => 30 | 12 => 31
  | _ => 0
  end.

(** Month and day from the day of the year, counted from 0: an estimate of
    the month that is right or one too large, then the correction. *)
Definition month_day (leapyear : bool) (r : Z) : Z * Z :=
  let month := Z.shiftr (r + 50) 5 in
  let preceding :=
    days_before_month_common month
    + (if (2 <? month) && leapyear then 1 else 0) in
  if r <? preceding then
    let month' := month - 1 in
    let preceding' :=
      preceding
      - (days_in_month_common month'
         + (if (month' =? 2) && leapyear then 1 else 0)) in
    (month', r - preceding' + 1)
  else (month, r - preceding + 1).

(** The inverse of [ymd2ord], by the 400/100/4/1-year cycles. *)
Definition ord2ymd (n : Z) : Z * Z * Z :=
  let n0 := n - 1 in
  let n400 := n0 / 146097 in let r400 := n0 mod 146097 in
  let n100 := r400 / 36524 in let r100 := r400 mod 36524 in
  let n4 := r100 / 1461 in let r4 := r100 mod 1461 in
  let n1 := r4 / 365 in let r1 := r4 mod 365 in
  let year := n400 * 400 + 1 + n100 * 100 + n4 * 4 + n1 in
  if (n1 =? 4) || (n100 =? 4) then (year - 1, 12, 31)
  else
    let leapyear := (n1 =? 3) && (negb (n4 =? 24) || (n100 =? 3)) in
    let '(month, day) := month_day leapyear r1 in
    (year, month, day).

(** [date(y, m, d)] and [time(h, mi, s)] with their range checks. *)
Definition make_date (y m d : Z) : res date :=
  if (1 <=? y) && (y <=? 9999) && (1 <=? m) && (m <=? 12)
     && (1 <=? d) && (d <=? days_in_month y m)
  then Ok (Date (ymd2ord y m d))
  else Raise ValueError.

Definition make_time (h mi s : Z) : res time :=
  if (0 <=? h) && (h <=? 23) && (0 <=? mi) && (mi <=? 59)
     && (0 <=? s) && (s <=? 59)
  then Ok (Time h mi s)
  else Raise ValueError.

(** Exactly [n] decimal digits. *)
Fixpoint parse_digits (n : nat) (acc : Z) (s : string) : option (Z * string) :=
  match n with
  | O => Some (acc, s)
  | S n' =>
      match s with
      | String c s' =>
          if is_digit c then parse_digits n' (10 * acc + digit_val c) s'
          else None
      | EmptyString => None
      end
  end.

Definition expect (c : ascii) (s : string) : option string :=
  match s with
  | String x s' => if Ascii.eqb x c then Some s' else None
  | EmptyString => None
  end.

Definition parse_ymd (s : string) : option (Z * Z * Z * string) :=
  '(y, s1) ← parse_digits 4 0 s;
  s2 ← expect "-" s1;
  '(m, s3) ← parse_digits 2 0 s2;
  s4 ← expect "-" s3;
  '(d, s5) ← parse_digits 2 0 s4;
  Some (y, m, d, s5).

Definition parse_hms (s : string) : option (Z * Z * Z) :=
  '(h, s1) ← parse_digits 2 0 s;
  if is_empty s1 then Some (h, 0, 0)
  else
    s2 ← expect ":" s1;
    '(mi, s3) ← parse_digits 2 0 s2;
    if is_empty s3 then Some (h, mi, 0)
    else
      s4 ← expect ":" s3;
      '(sec, s5) ← parse_digits 2 0 s4;
      if is_empty s5 then Some (h, mi, sec) else None.

(** [datetime.fromisoformat(s)] for the texts [YYYY-MM-DD] and
    [YYYY-MM-DD?HH[:MM[:SS]]] (any one character between date and time),
    which give naive values.  Fractions of a second, UTC offsets and the
    other ISO 8601 spellings are outside this profile. *)
Definition fromisoformat (s : string) : res datetime :=
  match parse_ymd s with
  | None => Raise Unmodelled
  | Some (y, m, d, rest) =>
      match rest with
      | EmptyString => dd ← make_date y m d; Ok (DateTime dd (Time 0 0 0))
      | String _ r =>
          match parse_hms r with
          | None => Raise Unmodelled
          | Some (h, mi, sec) =>
              dd ← make_date y m d;
              tt ← make_time h mi sec;
              Ok (DateTime dd tt)
          end
      end
  end.

Definition digit_char (d : Z) : ascii := ascii_of_N (Z.to_N (48 + d)).

Definition pad2 (n : Z) : string :=
  String (digit_char (n / 10 mod 10)) (String (digit_char (n mod 10)) EmptyString).

Definition pad4 (n : Z) : string :=
  String (digit_char (n / 1000 mod 10))
    (String (digit_char (n / 100 mod 10)) (pad2 n)).

(** [d.isoformat()] for a [date] and for a [datetime] *)
Definition date_isoformat (d : date) : string :=
  let '(y, m, dd) := ord2ymd (toordinal d) in
  pad4 y +:+ "-" +:+ pad2 m +:+ "-" +:+ pad2 dd.

Definition isoformat (dt : datetime) : string :=
  date_isoformat (dt_date dt) +:+ "T" +:+ pad2 (hour (dt_time dt))
  +:+ ":" +:+ pad2 (minute (dt_time dt)) +:+ ":" +:+ pad2 (second (dt_time dt)).

(** [d + timedelta(days=n)] *)
Definition date_add_days (d : date) (n : Z) : res date :=
  let o := toordinal d + n in
  if (1 <=? o) && (o <=? MAXORDINAL) then Ok (Date o) else Raise OverflowError.

(** Comparison of dates, of times and of naive datetimes. *)
Definition date_ltb (a b : date) : bool := toordinal a <? toordinal b.
Definition date_leb (a b : date) : bool := toordinal a <=? toordinal b.

Definition time_key (t : time) : Z * Z * Z := (hour t, minute t, second t).

Definition time_ltb (a b : time) : bool :=
  (hour a <? hour b)
  || ((hour a =? hour b)
      && ((minute a <? minute b)
          || ((minute a =? minute b) && (second a <? second b)))).

Definition time_eqb (a b : time) : bool :=
  (hour a =? hour b) && (minute a =? minute b) && (second a =? second b).

Definition time_leb (a b : time) : bool := time_ltb a b || time_eqb a b.

Definition datetime_eqb (a b : datetime) : bool :=
  (toordinal (dt_date a) =? toordinal (dt_date b))
  && time_eqb (dt_time a) (dt_time b).

Definition datetime_ltb (a b : datetime) : bool :=
  date_ltb (dt_date a) (dt_date b)
  || ((toordinal (dt_date a) =? toordinal (dt_date b))
      && time_ltb (dt_time a) (dt_time b)).

(** [(b - a)] in whole seconds. *)
Definition seconds_of_day (t : time) : Z :=
  hour t * 3600 + minute t * 60 + second t.

Definition datetime_sub (b a : datetime) : Z :=
  (toordinal (dt_date b) - toordinal (dt_date a)) * 86400
  + (seconds_of_day (dt_time b) - seconds_of_day (dt_time a)).

(** [total_seconds()] is [(days * 86400 + seconds) * 10**6 / 10**6] here,
    the whole number of seconds correctly rounded.  A [timedelta] is below
    10**9 days, so the division cannot overflow. *)
Definition total_seconds (secs : Z) : float := nearest secs 0.

(** [d.weekday()], Monday is 0, and [strftime("%a")] in the C locale, the
    one in force since the program never calls [setlocale]. *)
Definition weekday (d : date) : Z := (toordinal d + 6) mod 7.

Definition strftime_a (d : date) : string :=
  match weekday d with
  | 0 => "Mon" | 1 => "Tue" | 2 => "Wed" | 3 => "Thu"
  | 4 => "Fri" | 5 => "Sat" | _ => "Sun"
  end.

(** [datetime.strptime(s, "%H:%M").time()]: the hour is one or two digits
    up to 23, the minute one or two digits up to 59, and nothing may follow
    the minute. *)
Definition strptime_HM (s : string) : res time :=
  let hour_part : option (Z * string) :=
    match s with
    | String a r =>
        if is_digit a then
          match r with
          | String b r' =>
              if is_digit b
                 && (((digit_val a =? 2) && (digit_val b <=? 3))
                     || (digit_val a <=? 1))
              then Some (10 * digit_val a + digit_val b, r')
              else Some (digit_val a, r)
          | EmptyString => Some (digit_val a, r)
          end
        else None
    | EmptyString => None
    end in
  let minute_part (r : string) : option (Z * string) :=
    match r with
    | String a r1 =>
        if is_digit a then
          match r1 with
          | String b r2 =>
              if is_digit b && (digit_val a <=? 5)
              then Some (10 * digit_val a + digit_val b, r2)
              else Some (digit_val a, r1)
          | EmptyString => Some (digit_val a, r1)
          end
        else None
    | EmptyString => None
    end in
  match hour_part with
  | Some (h, String ":" r) =>
      match minute_part r with
      | Some (mi, EmptyString) => Ok (Time h mi 0)
      | _ => Raise ValueError
      end
  | _ => Raise ValueError
  end.

(** [l[:n]] *)
Definition slice_to {A} (n : Z) (l : list A) : list A :=
  if 0 <=? n then take (Z.to_nat n) l
  else take (length l - Z.to_nat (- n)) l.

End Py.
Import Py.

(** ** The program *)

(** [iso_duration_to_hm]: the pattern [PT(?:(\d+)H)?(?:(\d+)M)?] matched at
    the start of the text.  Each optional group is greedy: it takes the
    longest run of digits and needs its letter right after it; when the
    letter is missing the group matches nothing and the text is left where
    it was. *)
Definition opt_group (letter : ascii) (s : string) : option string * string :=
  let '(ds, rest) := span_digits s in
  match ds, rest with
  | String _ _, String c rest' =>
      if Ascii.eqb c letter then (Some ds, rest') else (None, s)
  | _, _ => (None, s)
  end.

Definition re_match_duration (duration : string)
  : option (option string * option string) :=
  match duration with
  | String "P" (String "T" r) =>
      let '(g1, r1) := opt_group "H" r in
      let '(g2, _) := opt_group "M" r1 in
      Some (g1, g2)
  | _ => None
  end.

(** [int(g or 0)] *)
Definition int_or_0 (g : option string) : res Z :=
  match g with
  | Some s => if is_empty s then Ok 0 else int_of_str s
  | None => Ok 0
  end.

Definition iso_duration_to_hm (duration : string) : res (Z * Z) :=
  match re_match_duration duration with
  | None => Raise AttributeError
  | Some (g1, g2) =>
      h ← int_or_0 g1;
      mi ← int_or_0 g2;
      Ok (h, mi)
  end.

Definition hm_to_hours (hours minutes : Z) : res float :=
  q ← int_truediv minutes 60;
  h ← float_of_int hours;
  Ok (PrimFloat.add h q).


Definition time_in_window (t : time) (start end_ : option time) : bool :=
  match start, end_ with
  | Some s, Some e =>
      if time_leb s e then time_leb s t && time_leb t e
      else time_leb s t || time_leb t e
  | _, _ => true
  end.

Definition day_period (h : Z) : string :=
  if (6 <=? h) && (h <? 22) then "day" else "night".

(** Offers as the provider returns them: only the fields the program
    reads. *)
Record endpoint : Type := { iataCode : string; at_ : string }.
Record segment : Type := { departure : endpoint; arrival : endpoint }.
Record itinerary : Type := { duration : string; segments : list segment }.
Record offer : Type := { price_total : string; itineraries : list itinerary }.

(** The values a sort key can take, and [<] and [==] on them and on the
    tuples [key_fn] builds.  All tuples of one call are built from the same
    key list, so two values at the same position have the same kind. *)
Inductive keyval : Type :=
  | KFloat (f : float)
  | KDatetime (d : datetime).

Definition keyval_eqb (a b : keyval) : bool :=
  match a, b with
  | KFloat x, KFloat y => PrimFloat.eqb x y
  | KDatetime x, KDatetime y => datetime_eqb x y
  | _, _ => false
  end.

Definition keyval_ltb (a b : keyval) : bool :=
  match a, b with
  | KFloat x, KFloat y => PrimFloat.ltb x y
  | KDatetime x, KDatetime y => datetime_ltb x y
  | _, _ => false
  end.

(** Tuple comparison: the first position where the two differ decides; a
    proper prefix is smaller. *)
Fixpoint tuple_ltb (a b : list keyval) : bool :=
  match a, b with
  | x :: a', y :: b' => if keyval_eqb x y then tuple_ltb a' b' else keyval_ltb x y
  | [], _ :: _ => true
  | _, [] => false
  end.

Definition key_fn (sort_keys : list string) (o : offer) : res (list keyval) :=
  itin ← index0 (itineraries o);
  let segs := segments itin in
  seg0 ← index0 segs;
  let dep := at_ (departure seg0) in
  itin_last ← index_last (itineraries o);
  seg_last ← index_last (segments itin_last);
  let ret := at_ (arrival seg_last) in
  price ← float_of_str (price_total o);
  '(h, m) ← iso_duration_to_hm (duration itin);
  dur ← hm_to_hours h m;
  dep_dt ← fromisoformat dep;
  ret_dt ← fromisoformat ret;
  let mapping (k : string) : res keyval :=
    if String.eqb k "price" then Ok (KFloat price)
    else if String.eqb k "departure_date" then Ok (KDatetime dep_dt)
    else if String.eqb k "duration" then Ok (KFloat dur)
    else if String.eqb k "return_date" then Ok (KDatetime ret_dt)
    else Raise KeyError in
  map_res mapping sort_keys.

Definition sort_offers (offers : list offer) (sort_keys : list string)
  : res (list offer) :=
  sorted tuple_ltb (key_fn sort_keys) offers.

Definition hours_between (dt1 dt2 : string) : res float :=
  t1 ← fromisoformat dt1;
  t2 ← fromisoformat dt2;
  Ok (PrimFloat.abs (PrimFloat.div (total_seconds (datetime_sub t2 t1)) 3600)).


(** The parsed command line, [ARGS].  [sort_by] holds the list after the
    default has been filled in; [max_stops] has an integer default, so it is
    never [None]. *)
Record Args : Type := {
  origins : list string;
  destinations : list string;
  depart : option string;
  ret : option string;
  depart_start : option string;
  depart_end : option string;
  return_start : option string;
  return_end : option string;
  max_stay : option (list string);
  range_length : option string;
  range_start : option string;
  filter_depart_days_time : option (list string);
  filter_return_days_time : option (list string);
  max_departure_stopover : option (list float);
  max_return_stopover : option (list float);
  nonstop : bool;
  max_stops : Z;
  max_results : Z;
  one_way : bool;
  allow_different_return_airport : bool;
  sort_by : list string
}.

(** Truth value of an optional text: [None] and the empty text are false. *)
Definition truthy (o : option string) : bool :=
  match o with
  | Some (String _ _) => true
  | _ => false
  end.

Definition text (o : option string) : string := default EmptyString o.

Definition is_nil {A} (l : list A) : bool :=
  match l with [] => true | _ :: _ => false end.

(** [start, end = map(int, parts)]: the values are converted one by one as
    they are unpacked; a third part is converted before the unpacking fails
    with [ValueError]. *)
Definition unpack2_int (parts : list string) : res (Z * Z) :=
  match parts with
  | [] => Raise ValueError
  | [a] => _ ← int_of_str a; Raise ValueError
  | a :: b :: more =>
      x ← int_of_str a;
      y ← int_of_str b;
      match more with
      | [] => Ok (x, y)
      | c :: _ => _ ← int_of_str c; Raise ValueError
      end
  end.

Definition expand_token (tok : string) (nights : gset Z) : res (gset Z) :=
  let s := tok in
  if contains "-" s then
    except_ValueError
      ('(start, end_) ← unpack2_int (split "-" s);
       Ok (nights ∪ list_to_set (range2 start (end_ + 1))))
      (Raise (SystemExit ("Invalid range format in --max-stay: " +:+ s)))
  else
    except_ValueError
      (n ← int_of_str s; Ok (nights ∪ {[ n ]}))
      (Raise (SystemExit ("Invalid number in --max-stay: " +:+ s))).

Definition expand_stay_durations (tokens : list string) : res (list Z) :=
  nights ← for_ tokens expand_token ∅;
  sorted Z.ltb Ok (elements nights).

Definition filter_map : Type := gmap string (option time * option time).

Definition parse_day_time_token (t0 : string) (filters : filter_map)
  : res filter_map :=
  let t := strip t0 in
  '(day, start_t, end_t) ←
    (if contains "(" t && contains ")" t then
       match split1 "(" t with
       | [day; rng0] =>
           let rng := rstrip_char ")" rng0 in
           except_ValueError
             (match split "-" rng with
              | [start_s; end_s] =>
                  start_t ← strptime_HM start_s;
                  end_t ← strptime_HM end_s;
                  Ok (day, Some start_t, Some end_t)
              | _ => Raise ValueError
              end)
             (Raise (SystemExit ("Bad time range in '" +:+ t
                                 +:+ "'. Expected HH:MM-HH:MM.")))
       | _ => Raise ValueError
       end
     else Ok (t, None, None));
  Ok (<[ take_str 3 (lower day) := (start_t, end_t) ]> filters).

Definition parse_day_time_filters (tokens : list string) : res filter_map :=
  for_ tokens parse_day_time_token ∅.

(** The module-level state read by the functions below. *)
Record config : Type := {
  ARGS : Args;
  DEPART_DAY_FILTER : filter_map;
  RETURN_DAY_FILTER : filter_map
}.

Definition load_config (A : Args) : res config :=
  d ← parse_day_time_filters (default [] (filter_depart_days_time A));
  r ← parse_day_time_filters (default [] (filter_return_days_time A));
  Ok {| ARGS := A; DEPART_DAY_FILTER := d; RETURN_DAY_FILTER := r |}.

Definition day_filter_ok (filters : filter_map) (dep_iso : string) : res bool :=
  if decide (filters = ∅) then Ok true
  else
    dt ← fromisoformat dep_iso;
    let key := take_str 3 (lower (strftime_a (dt_date dt))) in
    match filters !! key with
    | None => Ok false
    | Some (start, end_) => Ok (time_in_window (dt_time dt) start end_)
    end.

Definition depart_ok (G : config) (dep_iso : string) : res bool :=
  day_filter_ok (DEPART_DAY_FILTER G) dep_iso.

Definition return_ok (G : config) (dep_iso : string) : res bool :=
  day_filter_ok (RETURN_DAY_FILTER G) dep_iso.

(** The two leg kinds [stop_limits] is called with: ["departure"] and
    ["return"]. *)
Inductive leg_kind : Type := departure_leg | return_leg.

Definition max_stopover (A : Args) (kind : leg_kind) : option (list float) :=
  match kind with
  | departure_leg => max_departure_stopover A
  | return_leg => max_return_stopover A
  end.

Definition stop_limits (A : Args) (kind : leg_kind) (h : Z) : float :=
  let values := default [] (max_stopover A kind) in
  match values with
  | [] => infinity
  | [v] => v
  | v0 :: v1 :: _ => if String.eqb (day_period h) "day" then v0 else v1
  end.

(** The loop of [stopovers_ok] over [i] in [range(1, len(segs))], reading
    [segs[i-1]] and [segs[i]]; [n] is [len(segs)]. *)
Fixpoint stopovers_loop (A : Args) (kind : leg_kind) (n : Z)
    (segs : list segment) : res bool :=
  match segs with
  | prev :: ((next :: _) as rest) =>
      prev_arr ← fromisoformat (at_ (arrival prev));
      next_dep ← fromisoformat (at_ (departure next));
      wait_hr ← hours_between (isoformat prev_arr) (isoformat next_dep);
      let limit := stop_limits A kind (hour (dt_time prev_arr)) in
      if PrimFloat.ltb limit wait_hr || (max_stops A <? n - 1) then Ok false
      else stopovers_loop A kind n rest
  | _ => Ok true
  end.

Definition stopovers_ok (A : Args) (itin : itinerary) (kind : leg_kind)
  : res bool :=
  let segs := segments itin in
  stopovers_loop A kind (Z.of_nat (length segs)) segs.

(** *** Output and the accumulator *)

(** What the program prints, one event for each printed block; the text of
    a block is determined by the arguments of its event.  [PrOffer] is the
    three header lines of an offer (price, duration and stops; origin;
    destination), [PrReturn] the three lines of a return summary,
    [PrStopover] one stopover line, [PrRule] the closing rule. *)
Inductive event : Type :=
  | PrChecking (orig dest d_date : string) (r_date : option string)
  | PrRateLimit
  | PrRateLimitGiveUp
  | PrAmadeusError
  | PrSummary (n : Z)
  | PrReturn (dep arr : endpoint)
  | PrStopover (code : string) (wait_hr : float)
  | PrOffer (o : offer) (h m stops : Z)
  | PrRule.

Record world : Type := World {
  stdout : list event;
  ALL_MATCHES : list offer;
  requests : nat
}.

Definition io (A : Type) : Type := world → res A * world.

#[global] Instance io_ret : MRet io := λ A a w, (Ok a, w).
#[global] Instance io_bind : MBind io :=
  λ A B f m w,
    match m w with
    | (Ok a, w') => f a w'
    | (Raise e, w') => (Raise e, w')
    end.

Definition lift {A} (r : res A) : io A := λ w, (r, w).

Definition print (e : event) : io unit :=
  λ w, (Ok tt, World (stdout w ++ [e]) (ALL_MATCHES w) (requests w)).

Definition extend_matches (offers : list offer) : io unit :=
  λ w, (Ok tt, World (stdout w) (ALL_MATCHES w ++ offers) (requests w)).

Definition get_matches : io (list offer) := λ w, (Ok (ALL_MATCHES w), w).

Fixpoint for_io {X S} (xs : list X) (body : X → S → io S) (s : S) : io S :=
  match xs with
  | [] => mret s
  | x :: xs' => s' ← body x s; for_io xs' body s'
  end.

(** The stopover lines of one itinerary; the presenter has this loop three
    times. *)
Fixpoint print_stopovers (segs : list segment) : io unit :=
  match segs with
  | prev :: ((next :: _) as rest) =>
      prev_arr ← lift (fromisoformat (at_ (arrival prev)));
      next_dep ← lift (fromisoformat (at_ (departure next)));
      let wait_hr :=
        PrimFloat.div (total_seconds (datetime_sub next_dep prev_arr)) 3600 in
      _ ← print (PrStopover (iataCode (departure next)) wait_hr);
      print_stopovers rest
  | _ => mret tt
  end.

Definition seen_key : Type := string * option string * string.

(** The names bound by the filtering part of the loop body and read by
    the rest of it: [to_itin], [from_itin], [dep_seg] and [ret_seg], which
    is [None] in one-way mode. *)
Definition offer_locals : Type :=
  itinerary * itinerary * segment * option segment.

(** The loop body of [display_offers] up to the stopover filter and the
    last assignment to [ret_seg].  [None] stands for a [continue].  With a
    return leg the summary of the return itinerary is printed here, before
    the remaining filters. *)
Definition offer_filters (G : config) (o : offer) : io (option offer_locals) :=
  let A := ARGS G in
  to_itin ← lift (index0 (itineraries o));
  from_itin ← lift (index_last (itineraries o));
  dep_seg ← lift (index0 (segments to_itin));
  dep_ok ← lift (depart_ok G (at_ (departure dep_seg)));
  if negb dep_ok then mret None else
  inbound ←
    (if negb (one_way A) then
       let ret_segs := segments from_itin in
       ret_dep_seg ← lift (index0 ret_segs);
       ret_arr_seg ← lift (index_last ret_segs);
       same ←
         (if negb (allow_different_return_airport A) then
            to_last ← lift (index_last (segments to_itin));
            mret (String.eqb (iataCode (arrival to_last))
                             (iataCode (arrival ret_arr_seg)))
          else mret true);
       if negb same then mret false else
       _ ← lift (fromisoformat (at_ (departure ret_dep_seg)));
       _ ← lift (fromisoformat (at_ (arrival ret_arr_seg)));
       _ ← print (PrReturn (departure ret_dep_seg) (arrival ret_arr_seg));
       _ ← print_stopovers ret_segs;
       mret true
     else mret true);
  if negb inbound then mret None else
  ret_ok ←
    (if negb (one_way A) then
       ret_seg ← lift (index0 (segments from_itin));
       lift (return_ok G (at_ (departure ret_seg)))
     else mret true);
  if negb ret_ok then mret None else
  out_ok ← lift (stopovers_ok A to_itin departure_leg);
  in_ok ← (if negb out_ok then mret false
           else lift (stopovers_ok A from_itin return_leg));
  if negb in_ok then mret None else
  ret_seg ←
    (if negb (one_way A) then
       seg ← lift (index0 (segments from_itin)); mret (Some seg)
     else mret None);
  mret (Some (to_itin, from_itin, dep_seg, ret_seg)).

Definition key_of (o : offer) (locals : offer_locals) : seen_key :=
  let '(_, _, dep_seg, ret_seg) := locals in
  (at_ (departure dep_seg), (at_ ∘ departure) <$> ret_seg, price_total o).

(** The printing part of the loop body. *)
Definition print_offer (o : offer) (locals : offer_locals) : io unit :=
  let '(to_itin, from_itin, dep_seg, ret_seg) := locals in
  '(duration_h, duration_m) ← lift (iso_duration_to_hm (duration to_itin));
  _ ← lift (fromisoformat (at_ (departure dep_seg)));
  to_last ← lift (index_last (segments to_itin));
  _ ← lift (fromisoformat (at_ (arrival to_last)));
  _ ← lift (match ret_seg with
            | Some seg => fromisoformat (at_ (departure seg))
            | None => Raise TypeError
            end);
  let num_stops := Z.of_nat (length (segments to_itin)) - 1 in
  _ ← print (PrOffer o duration_h duration_m num_stops);
  _ ← print_stopovers (segments to_itin);
  let ret_segs := segments from_itin in
  ret_dep_seg ← lift (index0 ret_segs);
  ret_arr_seg ← lift (index_last ret_segs);
  _ ← lift (fromisoformat (at_ (departure ret_dep_seg)));
  _ ← lift (fromisoformat (at_ (arrival ret_arr_seg)));
  _ ← print (PrReturn (departure ret_dep_seg) (arrival ret_arr_seg));
  _ ← print_stopovers ret_segs;
  print PrRule.

(** One turn of the loop of [display_offers]; the result is the set [seen]
    after the turn.  A [continue] returns [seen] as it was. *)
Definition display_offer (G : config) (o : offer) (seen : gset seen_key)
  : io (gset seen_key) :=
  locals ← offer_filters G o;
  match locals with
  | None => mret seen
  | Some locals =>
      let key := key_of o locals in
      if decide (key ∈ seen) then mret seen else
      let seen' := seen ∪ {[ key ]} in
      _ ← print_offer o locals;
      mret seen'
  end.

Definition display_offers (G : config) (offers : list offer) : io unit :=
  _ ← for_io offers (display_offer G) ∅;
  mret tt.

(** *** The request sent to the provider *)

Record query : Type := {
  originLocationCode : string;
  destinationLocationCode : string;
  departureDate : string;
  returnDate : option string;
  adults : Z;
  max : Z;
  currencyCode : string;
  nonStop : string
}.

Record response : Type := { status_code : Z; data : list offer }.

Section Environment.

(** What the program takes from outside: the current day, the access
    token request, and the provider, whose answer may depend on how many
    requests were sent before.

    [parse_range_length] is called by [make_date_pairs], but the source
    file has no definition of it.  It is a parameter here: the number of
    days the text of [--range-length] stands for. *)
Variable today : date.
Variable parse_range_length : string → res Z.
Variable get_access_token : res string.
Variable http_get : nat → query → response.

(** The [while start <= end] loop of the range mode.  [fuel] bounds the
    number of times the condition is tested; [make_date_pairs] passes one
    more than the number of days in the window, so the first case is never
    reached. *)
Fixpoint depart_loop (A : Args) (stays : list Z) (fuel : nat)
    (start end_ : date) (pairs : list (string * string))
  : res (list (string * string)) :=
  match fuel with
  | O => Raise Unmodelled
  | S fuel' =>
      if date_leb start end_ then
        pairs' ←
          for_ stays
            (λ stay pairs,
               ret_d ← date_add_days start stay;
               early ←
                 (if truthy (return_start A) then
                    dt ← fromisoformat (text (return_start A));
                    Ok (date_ltb ret_d (dt_date dt))
                  else Ok false);
               if (early : bool) then Ok pairs else
               late ←
                 (if truthy (return_end A) then
                    dt ← fromisoformat (text (return_end A));
                    Ok (date_ltb (dt_date dt) ret_d)
                  else Ok false);
               if (late : bool) then Ok pairs else
               Ok (pairs ++ [(date_isoformat start, date_isoformat ret_d)]))
            pairs;
        start' ← date_add_days start 1;
        depart_loop A stays fuel' start' end_ pairs'
      else Ok pairs
  end.

(** [make_date_pairs] also stores the expanded stay lengths back into
    [ARGS.max_stay]; nothing reads them afterwards. *)
Definition make_date_pairs (A : Args) : res (list (string * string)) :=
  stays ←
    match max_stay A with
    | Some (t :: ts) => expand_stay_durations (t :: ts)
    | _ => Ok []
    end;
  if truthy (range_length A) && negb (is_nil stays) then
    base ←
      (if truthy (range_start A) then
         dt ← fromisoformat (text (range_start A)); Ok (dt_date dt)
       else Ok today);
    total_days ← parse_range_length (text (range_length A));
    for_ (range total_days)
      (λ offset pairs,
         d_date ← date_add_days base offset;
         for_ stays
           (λ stay pairs,
              r_date ← date_add_days d_date stay;
              Ok (pairs ++ [(date_isoformat d_date, date_isoformat r_date)]))
           pairs)
      []
  else if truthy (depart_start A) && truthy (depart_end A)
          && negb (is_nil stays) then
    start_dt ← fromisoformat (text (depart_start A));
    end_dt ← fromisoformat (text (depart_end A));
    let start := dt_date start_dt in
    let end_ := dt_date end_dt in
    depart_loop A stays (S (Z.to_nat (toordinal end_ - toordinal start + 1)))
      start end_ []
  else if truthy (depart A) && truthy (ret A) then
    Ok [(text (depart A), text (ret A))]
  else Raise (SystemExit "Provide either fixed dates or a flexible range.").

Definition requests_get (q : query) : io response :=
  λ w, (Ok (http_get (requests w) q),
        World (stdout w) (ALL_MATCHES w) (S (requests w))).

(** [for attempt in range(3): ... else: ...] of [call_amadeus]. *)
Fixpoint attempts (n : nat) (q : query) : io (option response) :=
  match n with
  | O => _ ← print PrRateLimitGiveUp; mret None
  | S n' =>
      rsp ← requests_get q;
      if status_code rsp =? 429 then
        _ ← print PrRateLimit; attempts n' q
      else mret (Some rsp)
  end.

Definition call_amadeus (A : Args) (token origin destination depart_ ret_ : string)
  : io (option (list offer)) :=
  let params :=
    {| originLocationCode := origin;
       destinationLocationCode := destination;
       departureDate := depart_;
       returnDate := if is_empty ret_ then None else Some ret_;
       adults := 1;
       max := max_results A;
       currencyCode := "GBP";
       nonStop := if nonstop A then "true" else "false" |} in
  r ← attempts 3 params;
  match r with
  | None => mret None
  | Some rsp =>
      if negb (status_code rsp =? 200) then
        _ ← print PrAmadeusError; mret (Some [])
      else
        offers ← lift (sort_offers (data rsp) (sort_by A));
        mret (Some offers)
  end.

(** The body of the innermost loop of [run_search]. *)
Definition search_pair (G : config) (token orig dest : string)
    (pair : string * string) (_ : unit) : io unit :=
  let A := ARGS G in
  let '(d_date, r_date) := pair in
  d_ok ← lift (depart_ok G (d_date +:+ "T12:00:00"));
  if negb d_ok then mret tt else
  r_ok ← (if negb (one_way A) then lift (return_ok G (r_date +:+ "T12:00:00"))
          else mret true);
  if negb r_ok then mret tt else
  _ ← print (PrChecking orig dest d_date
               (if negb (one_way A) then Some r_date else None));
  offers ← call_amadeus A token orig dest d_date r_date;
  match offers with
  | None | Some [] => mret tt
  | Some offers =>
      sorted_offers ← lift (sort_offers offers (sort_by A));
      best_offer ← lift (index0 sorted_offers);
      _ ← display_offers G [best_offer];
      extend_matches offers
  end.

Definition run_search (G : config) : io unit :=
  let A := ARGS G in
  token ← lift get_access_token;
  date_pairs ← lift (make_date_pairs A);
  _ ← for_io (origins A)
        (λ orig _,
           for_io (destinations A)
             (λ dest _, for_io date_pairs (search_pair G token orig dest) tt)
             tt)
        tt;
  _ ← print (PrSummary (max_results A));
  all ← get_matches;
  ranked ← lift (sort_offers all (sort_by A));
  display_offers G (slice_to (max_results A) ranked).

End Environment.


(** ** Vocabulary of the statements *)







(** ** Text and numerals *)

Lemma append_String c (s t : string) : String c s +:+ t = String c (s +:+ t).
Proof. reflexivity. Qed.

Lemma append_nil_l (s : string) : EmptyString +:+ s = s.
Proof. reflexivity. Qed.

Lemma append_nil_r_aux (s : string) : s +:+ EmptyString = s.
Proof.
  induction s as [|c s IH]; [done|].
  change (String c (s +:+ EmptyString) = String c s).
  exact (f_equal (String c) IH).
Qed.

Lemma append_assoc (s t u : string) : (s +:+ t) +:+ u = s +:+ (t +:+ u).
Proof.
  induction s as [|c s IH]; [done|].
  change (String c ((s +:+ t) +:+ u) = String c (s +:+ (t +:+ u))).
  exact (f_equal (String c) IH).
Qed.













(** ** C8: the duration parser *)



(** ** The calendar *)

Definition month_day_ok (leapyear : bool) (r : Z) : bool :=
  let '(m, d) := month_day leapyear r in
  (1 <=? m) && (m <=? 12) && (1 <=? d)
  && (d <=? days_in_month_common m + (if (m =? 2) && leapyear then 1 else 0))
  && (days_before_month_common m + (if (2 <? m) && leapyear then 1 else 0) + d
      =? r + 1).

Lemma month_day_table :
  forallb (λ k, month_day_ok false (Z.of_nat k)) (seq 0 365)
  && forallb (λ k, month_day_ok true (Z.of_nat k)) (seq 0 366) = true.
Proof. vm_compute. reflexivity. Qed.

Lemma month_day_spec (leapyear : bool) (r : Z) :
  0 <= r < 365 + (if leapyear then 1 else 0) →
  month_day_ok leapyear r = true.
Proof.
  intros Hr. pose proof month_day_table as T.
  apply andb_true_iff in T as [T0 T1].
  rewrite forallb_forall in T0, T1.
  replace r with (Z.of_nat (Z.to_nat r)) by lia.
  destruct leapyear; [apply T1 | apply T0]; apply in_seq; lia.
Qed.

Lemma days_before_year_cycles (a b c d : Z) :
  0 <= a → 0 <= b <= 3 → 0 <= c <= 24 → 0 <= d <= 3 →
  days_before_year (400 * a + 100 * b + 4 * c + d + 1)
  = 146097 * a + 36524 * b + 1461 * c + 365 * d.
Proof.
  intros Ha Hb Hc Hd. unfold days_before_year.
  replace (400 * a + 100 * b + 4 * c + d + 1 - 1)
    with (400 * a + 100 * b + 4 * c + d) by lia.
  set (p := 400 * a + 100 * b + 4 * c + d).
  assert (p / 4 = 100 * a + 25 * b + c) by (subst p; symmetry; apply Z.div_unique with d; lia).
  assert (p / 100 = 4 * a + b) by (subst p; symmetry; apply Z.div_unique with (4 * c + d); lia).
  assert (p / 400 = a) by (subst p; symmetry; apply Z.div_unique with (100 * b + 4 * c + d); lia).
  lia.
Qed.

Lemma is_leap_cycles (a b c d : Z) :
  0 <= a → 0 <= b <= 3 → 0 <= c <= 24 → 0 <= d <= 3 →
  is_leap (400 * a + 100 * b + 4 * c + d + 1)
  = (d =? 3) && (negb (c =? 24) || (b =? 3)).
Proof.
  intros Ha Hb Hc Hd. unfold is_leap.
  set (y := 400 * a + 100 * b + 4 * c + d + 1).
  assert (E4 : y mod 4 = (d + 1) mod 4).
  { subst y. replace (400 * a + 100 * b + 4 * c + d + 1)
      with ((d + 1) + (100 * a + 25 * b + c) * 4) by lia.
    apply Z.mod_add. lia. }
  assert (E100 : y mod 100 = (4 * c + d + 1) mod 100).
  { subst y. replace (400 * a + 100 * b + 4 * c + d + 1)
      with ((4 * c + d + 1) + (4 * a + b) * 100) by lia.
    apply Z.mod_add. lia. }
  assert (E400 : y mod 400 = (100 * b + 4 * c + d + 1) mod 400).
  { subst y. replace (400 * a + 100 * b + 4 * c + d + 1)
      with ((100 * b + 4 * c + d + 1) + a * 400) by lia.
    apply Z.mod_add. lia. }
  rewrite E4, E100, E400.
  destruct (Z.eqb_spec d 3) as [->|Hd3].
  - destruct (Z.eqb_spec c 24) as [->|Hc24].
    + destruct (Z.eqb_spec b 3) as [->|Hb3]; [reflexivity|].
      assert (b = 0 ∨ b = 1 ∨ b = 2) as [->|[->| ->]] by lia; reflexivity.
    + replace ((3 + 1) mod 4) with 0 by reflexivity. simpl.
      assert ((4 * c + 3 + 1) mod 100 ≠ 0).
      { rewrite Z.mod_small by lia. lia. }
      destruct (Z.eqb_spec ((4 * c + 3 + 1) mod 100) 0); [lia|reflexivity].
  - assert ((d + 1) mod 4 ≠ 0) by (rewrite Z.mod_small by lia; lia).
    destruct (Z.eqb_spec ((d + 1) mod 4) 0); [lia|reflexivity].
Qed.

Lemma days_in_month_split (y m : Z) :
  1 <= m <= 12 →
  days_in_month y m
  = days_in_month_common m + (if (m =? 2) && is_leap y then 1 else 0).
Proof.
  intros Hm.
  assert (m = 1 ∨ m = 2 ∨ m = 3 ∨ m = 4 ∨ m = 5 ∨ m = 6 ∨ m = 7 ∨ m = 8
          ∨ m = 9 ∨ m = 10 ∨ m = 11 ∨ m = 12) as Hc by lia.
  repeat (destruct Hc as [->|Hc]); try subst m; simpl;
    try reflexivity; destruct (is_leap y); reflexivity.
Qed.

Lemma ymd2ord_month_day (y r : Z) :
  0 <= r < 365 →
  let '(m, d) := month_day (is_leap y) r in
  1 <= m <= 12 ∧ 1 <= d <= days_in_month y m
  ∧ ymd2ord y m d = days_before_year y + r + 1.
Proof.
  intros Hr.
  pose proof (month_day_spec (is_leap y) r) as H.
  unfold month_day_ok in H. destruct (month_day (is_leap y) r) as [m d].
  assert (Hr' : 0 <= r < 365 + (if is_leap y then 1 else 0))
    by (destruct (is_leap y); lia).
  specialize (H Hr').
  repeat (apply andb_true_iff in H as [H ?]).
  assert (Hm : 1 <= m <= 12) by lia.
  rewrite (days_in_month_split y m Hm).
  unfold ymd2ord, days_before_month. lia.
Qed.

Lemma ord2ymd_spec (n : Z) :
  1 <= n <= MAXORDINAL →
  ∃ y m d, ord2ymd n = (y, m, d)
    ∧ 1 <= y <= 9999 ∧ 1 <= m <= 12 ∧ 1 <= d <= days_in_month y m
    ∧ ymd2ord y m d = n.
Proof.
  unfold MAXORDINAL. intros Hn. unfold ord2ymd.
  pose proof (Z.div_mod (n - 1) 146097 ltac:(lia)) as E400.
  pose proof (Z.mod_pos_bound (n - 1) 146097 ltac:(lia)) as B400.
  set (n400 := (n - 1) / 146097) in *.
  set (r400 := (n - 1) mod 146097) in *.
  pose proof (Z.div_mod r400 36524 ltac:(lia)) as E100.
  pose proof (Z.mod_pos_bound r400 36524 ltac:(lia)) as B100.
  set (n100 := r400 / 36524) in *.
  set (r100 := r400 mod 36524) in *.
  pose proof (Z.div_mod r100 1461 ltac:(lia)) as E4.
  pose proof (Z.mod_pos_bound r100 1461 ltac:(lia)) as B4.
  set (n4 := r100 / 1461) in *.
  set (r4 := r100 mod 1461) in *.
  pose proof (Z.div_mod r4 365 ltac:(lia)) as E1.
  pose proof (Z.mod_pos_bound r4 365 ltac:(lia)) as B1.
  set (n1 := r4 / 365) in *.
  set (r1 := r4 mod 365) in *.
  clearbody n400 r400 n100 r100 n4 r4 n1 r1.
  assert (0 <= n400 <= 24) by lia.
  assert (0 <= n100 <= 4) by lia.
  assert (0 <= n4 <= 24) by lia.
  assert (0 <= n1 <= 4) by lia.
  destruct ((n1 =? 4) || (n100 =? 4)) eqn:Elast.
  - (* the last day of a leap year *)
    exists (n400 * 400 + 1 + n100 * 100 + n4 * 4 + n1 - 1), 12, 31.
    split; [reflexivity|].
    apply orb_true_iff in Elast as [Elast|Elast]; apply Z.eqb_eq in Elast.
    + assert (n100 <= 3 ∧ n4 <= 23 ∧ r1 = 0) as (? & ? & ?) by lia.
      replace (n400 * 400 + 1 + n100 * 100 + n4 * 4 + n1 - 1)
        with (400 * n400 + 100 * n100 + 4 * n4 + 3 + 1) by lia.
      unfold ymd2ord, days_before_month.
      rewrite days_before_year_cycles, is_leap_cycles by lia.
      unfold days_in_month.
      replace (n4 =? 24) with false by (symmetry; apply Z.eqb_neq; lia).
      simpl. lia.
    + assert (n4 = 0 ∧ n1 = 0 ∧ r1 = 0) as (? & ? & ?) by lia.
      replace (n400 * 400 + 1 + n100 * 100 + n4 * 4 + n1 - 1)
        with (400 * n400 + 100 * 3 + 4 * 24 + 3 + 1) by lia.
      unfold ymd2ord, days_before_month.
      rewrite days_before_year_cycles, is_leap_cycles by lia.
      unfold days_in_month. simpl. lia.
  - apply orb_false_iff in Elast as [En1 En100].
    apply Z.eqb_neq in En1, En100.
    replace (n400 * 400 + 1 + n100 * 100 + n4 * 4 + n1)
      with (400 * n400 + 100 * n100 + 4 * n4 + n1 + 1) by lia.
    set (y := 400 * n400 + 100 * n100 + 4 * n4 + n1 + 1).
    rewrite <- (is_leap_cycles n400 n100 n4 n1) by lia. fold y.
    pose proof (ymd2ord_month_day y r1 ltac:(lia)) as Hmd.
    destruct (month_day (is_leap y) r1) as [m d].
    destruct Hmd as (Hm & Hd & Hord).
    exists y, m, d. split; [reflexivity|].
    split; [subst y; lia|]. split; [done|]. split; [done|].
    rewrite Hord. subst y.
    rewrite days_before_year_cycles by lia. lia.
Qed.

Lemma ymd2ord_range (y m d : Z) :
  1 <= y <= 9999 → 1 <= m <= 12 → 1 <= d <= days_in_month y m →
  1 <= ymd2ord y m d <= MAXORDINAL.
Proof.
  intros Hy Hm Hd. unfold ymd2ord, MAXORDINAL.
  assert (Hdoy : 1 <= days_before_month y m + d
                 <= 365 + (if is_leap y then 1 else 0)).
  { unfold days_before_month. rewrite (days_in_month_split y m Hm) in Hd.
    assert (m = 1 ∨ m = 2 ∨ m = 3 ∨ m = 4 ∨ m = 5 ∨ m = 6 ∨ m = 7 ∨ m = 8
            ∨ m = 9 ∨ m = 10 ∨ m = 11 ∨ m = 12) as Hc by lia.
    repeat (destruct Hc as [->|Hc]); try subst m; simpl in *;
      destruct (is_leap y); lia. }
  assert (Hleap : is_leap y = true → y <= 9996).
  { unfold is_leap. intros H. apply andb_true_iff in H as [H _].
    apply Z.eqb_eq in H.
    pose proof (Z.div_mod y 4 ltac:(lia)). lia. }
  assert (Hby : 0 <= days_before_year y
                ∧ days_before_year y <= 3651694
                ∧ (y <= 9996 → days_before_year y <= 3650598)).
  { unfold days_before_year.
    pose proof (Z.div_mod (y - 1) 4 ltac:(lia)).
    pose proof (Z.mod_pos_bound (y - 1) 4 ltac:(lia)).
    pose proof (Z.div_mod (y - 1) 100 ltac:(lia)).
    pose proof (Z.mod_pos_bound (y - 1) 100 ltac:(lia)).
    pose proof (Z.div_mod (y - 1) 400 ltac:(lia)).
    pose proof (Z.mod_pos_bound (y - 1) 400 ltac:(lia)).
    lia. }
  destruct (is_leap y); [specialize (Hleap eq_refl)|]; lia.
Qed.

(** ** ISO text of dates and times *)

Definition valid_date (d : date) : Prop := 1 <= toordinal d <= MAXORDINAL.

Definition valid_time (t : time) : Prop :=
  0 <= hour t <= 23 ∧ 0 <= minute t <= 59 ∧ 0 <= second t <= 59.

Definition valid_datetime (dt : datetime) : Prop :=
  valid_date (dt_date dt) ∧ valid_time (dt_time dt).

Lemma make_date_valid y m d dd : make_date y m d = Ok dd → valid_date dd.
Proof.
  unfold make_date.
  destruct ((1 <=? y) && (y <=? 9999) && (1 <=? m) && (m <=? 12)
            && (1 <=? d) && (d <=? days_in_month y m)) eqn:E; [|discriminate].
  intros [= <-]. repeat (apply andb_true_iff in E as [E ?]).
  apply ymd2ord_range; lia.
Qed.

Lemma make_time_valid h mi s t : make_time h mi s = Ok t → valid_time t.
Proof.
  unfold make_time.
  destruct ((0 <=? h) && (h <=? 23) && (0 <=? mi) && (mi <=? 59)
            && (0 <=? s) && (s <=? 59)) eqn:E; [|discriminate].
  intros [= <-]. repeat (apply andb_true_iff in E as [E ?]).
  unfold valid_time. simpl. lia.
Qed.

Lemma fromisoformat_valid s dt : fromisoformat s = Ok dt → valid_datetime dt.
Proof.
  unfold fromisoformat.
  destruct (parse_ymd s) as [[[[y m] d] rest]|]; [|discriminate].
  destruct rest as [|sep r].
  - destruct (make_date y m d) as [dd|] eqn:Ed; [|discriminate].
    intros [= <-]. split; [by eapply make_date_valid|].
    unfold valid_time. simpl. lia.
  - destruct (parse_hms r) as [[[h mi] sec]|]; [|discriminate].
    destruct (make_date y m d) as [dd|] eqn:Ed; [|discriminate].
    cbn. destruct (make_time h mi sec) as [tt|] eqn:Et; [|discriminate].
    intros [= <-]. split; [by eapply make_date_valid|by eapply make_time_valid].
Qed.

Lemma bind_Ok {A B} (x : A) (f : A → res B) : Ok x ≫= f = f x.
Proof. reflexivity. Qed.

Lemma bind_Raise {A B} (e : exn) (f : A → res B) : Raise e ≫= f = Raise e.
Proof. reflexivity. Qed.

Lemma bind_is_Ok {A B} (m : res A) (f : A → res B) (y : B) :
  m ≫= f = Ok y → ∃ x, m = Ok x ∧ f x = Ok y.
Proof. destruct m as [x|e]; [eauto|discriminate]. Qed.

Lemma bind_Some {A B} (x : A) (f : A → option B) : Some x ≫= f = f x.
Proof. reflexivity. Qed.

Lemma expect_String (c : ascii) (r : string) : expect c (String c r) = Some r.
Proof. simpl. by rewrite Ascii.eqb_refl. Qed.

Lemma digit_char_spec (d : Z) :
  0 <= d <= 9 → is_digit (digit_char d) = true ∧ digit_val (digit_char d) = d.
Proof.
  intros H.
  assert (d = 0 ∨ d = 1 ∨ d = 2 ∨ d = 3 ∨ d = 4 ∨ d = 5 ∨ d = 6 ∨ d = 7
          ∨ d = 8 ∨ d = 9) as Hc by lia.
  repeat (destruct Hc as [->|Hc]); try subst d; split; reflexivity.
Qed.

Lemma parse_digits_pad2 (n acc : Z) (rest : string) :
  0 <= n <= 99 →
  parse_digits 2 acc (pad2 n +:+ rest) = Some (100 * acc + n, rest).
Proof.
  intros Hn. unfold pad2. rewrite !append_String, append_nil_l.
  destruct (digit_char_spec (n / 10 mod 10)) as [D1 V1].
  { pose proof (Z.mod_pos_bound (n / 10) 10); lia. }
  destruct (digit_char_spec (n mod 10)) as [D2 V2].
  { pose proof (Z.mod_pos_bound n 10); lia. }
  cbn [parse_digits]. rewrite D1, D2, V1, V2.
  f_equal. f_equal.
  pose proof (Z.div_mod n 10 ltac:(lia)).
  pose proof (Z.mod_pos_bound n 10 ltac:(lia)).
  rewrite (Z.mod_small (n / 10) 10) by lia. lia.
Qed.

Lemma parse_digits_pad4 (n : Z) (rest : string) :
  0 <= n <= 9999 →
  parse_digits 4 0 (pad4 n +:+ rest) = Some (n, rest).
Proof.
  intros Hn. unfold pad4. rewrite !append_String.
  destruct (digit_char_spec (n / 1000 mod 10)) as [D1 V1].
  { pose proof (Z.mod_pos_bound (n / 1000) 10); lia. }
  destruct (digit_char_spec (n / 100 mod 10)) as [D2 V2].
  { pose proof (Z.mod_pos_bound (n / 100) 10); lia. }
  cbn [parse_digits]. rewrite D1, D2, V1, V2.
  unfold pad2. rewrite !append_String, append_nil_l.
  destruct (digit_char_spec (n / 10 mod 10)) as [D3 V3].
  { pose proof (Z.mod_pos_bound (n / 10) 10); lia. }
  destruct (digit_char_spec (n mod 10)) as [D4 V4].
  { pose proof (Z.mod_pos_bound n 10); lia. }
  rewrite D3, D4, V3, V4. f_equal. f_equal.
  Z.div_mod_to_equations. lia.
Qed.

Lemma parse_ymd_isoformat (d : date) (rest : string) :
  valid_date d →
  ∃ y m dd, parse_ymd (date_isoformat d +:+ rest) = Some (y, m, dd, rest)
    ∧ make_date y m dd = Ok d.
Proof.
  intros Hd. unfold date_isoformat.
  destruct (ord2ymd_spec (toordinal d) Hd) as (y & m & dd & E & Hy & Hm & Hdd & Ho).
  rewrite E. exists y, m, dd. split.
  - assert (0 <= dd <= 99).
    { rewrite (days_in_month_split y m Hm) in Hdd.
      assert (days_in_month_common m <= 31).
      { assert (m = 1 ∨ m = 2 ∨ m = 3 ∨ m = 4 ∨ m = 5 ∨ m = 6 ∨ m = 7
                ∨ m = 8 ∨ m = 9 ∨ m = 10 ∨ m = 11 ∨ m = 12) as Hc by lia.
        repeat (destruct Hc as [->|Hc]); try subst m; simpl; lia. }
      destruct ((m =? 2) && is_leap y); lia. }
    unfold parse_ymd. rewrite !append_assoc, !append_String, !append_nil_l.
    rewrite parse_digits_pad4, bind_Some by lia. cbv beta iota.
    rewrite expect_String, bind_Some.
    rewrite parse_digits_pad2, bind_Some by lia. cbv beta iota.
    rewrite expect_String, bind_Some.
    rewrite parse_digits_pad2, bind_Some by lia. reflexivity.
  - unfold make_date.
    replace ((1 <=? y) && (y <=? 9999) && (1 <=? m) && (m <=? 12)
             && (1 <=? dd) && (dd <=? days_in_month y m)) with true.
    + rewrite Ho. by destruct d.
    + symmetry. repeat (apply andb_true_iff; split); lia.
Qed.

Lemma parse_hms_pad (h mi s : Z) :
  0 <= h <= 99 → 0 <= mi <= 99 → 0 <= s <= 99 →
  parse_hms (pad2 h +:+ ":" +:+ pad2 mi +:+ ":" +:+ pad2 s) = Some (h, mi, s).
Proof.
  intros Hh Hm Hs. unfold parse_hms.
  rewrite !append_String, !append_nil_l.
  rewrite parse_digits_pad2, bind_Some by lia. cbv beta iota.
  cbn [is_empty]. rewrite expect_String, bind_Some.
  rewrite parse_digits_pad2, bind_Some by lia. cbv beta iota.
  cbn [is_empty]. rewrite expect_String, bind_Some.
  rewrite <- (append_nil_r_aux (pad2 s)).
  rewrite parse_digits_pad2, bind_Some by lia. reflexivity.
Qed.

Lemma fromisoformat_isoformat (dt : datetime) :
  valid_datetime dt → fromisoformat (isoformat dt) = Ok dt.
Proof.
  intros [Hd (Hh & Hm & Hs)]. unfold isoformat, fromisoformat.
  destruct (parse_ymd_isoformat (dt_date dt)
              ("T" +:+ pad2 (hour (dt_time dt)) +:+ ":"
               +:+ pad2 (minute (dt_time dt)) +:+ ":"
               +:+ pad2 (second (dt_time dt))) Hd)
    as (y & m & dd & Ep & Emk).
  rewrite Ep, append_String, append_nil_l.
  rewrite parse_hms_pad by lia. rewrite Emk. cbn.
  unfold make_time.
  replace ((0 <=? hour (dt_time dt)) && (hour (dt_time dt) <=? 23)
           && (0 <=? minute (dt_time dt)) && (minute (dt_time dt) <=? 59)
           && (0 <=? second (dt_time dt)) && (second (dt_time dt) <=? 59))
    with true.
  - cbn. by destruct dt as [d []].
  - symmetry. repeat (apply andb_true_iff; split); lia.
Qed.

(** ** C3, C10: stopover limits *)

(** The connections of an itinerary: each segment with the one after it. *)
Fixpoint connections (segs : list segment) : list (segment * segment) :=
  match segs with
  | prev :: ((next :: _) as rest) => (prev, next) :: connections rest
  | _ => []
  end.

(** A connection whose two timestamps have been read: the arrival of the
    earlier segment and the departure of the later one. *)
Definition read_connection (c : segment * segment) : res (datetime * datetime) :=
  a ← fromisoformat (at_ (arrival (fst c)));
  b ← fromisoformat (at_ (departure (snd c)));
  Ok (a, b).

(** The wait of a connection in hours, as [hours_between] gives it. *)
Definition connection_wait (c : datetime * datetime) : float :=
  PrimFloat.abs
    (PrimFloat.div (total_seconds (datetime_sub (snd c) (fst c))) 3600).

(** The limit a connection is held to: chosen by the hour of the arrival
    before it. *)
Definition connection_limit (A : Args) (kind : leg_kind)
    (c : datetime * datetime) : float :=
  stop_limits A kind (hour (dt_time (fst c))).

(** [wait > limit] *)
Definition exceeds (wait limit : float) : bool := PrimFloat.ltb limit wait.

Definition within_limit (A : Args) (kind : leg_kind)
    (c : datetime * datetime) : bool :=
  negb (exceeds (connection_wait c) (connection_limit A kind c)).

Lemma float_eqb_not_ltb (x y : float) :
  PrimFloat.eqb x y = true → PrimFloat.ltb x y = false.
Proof.
  rewrite FloatAxioms.eqb_spec, FloatAxioms.ltb_spec.
  unfold SFeqb, SFltb.
  by destruct (SFcompare (Prim2SF x) (Prim2SF y)) as [[]|].
Qed.

Lemma hours_between_isoformat (a b : datetime) :
  valid_datetime a → valid_datetime b →
  hours_between (isoformat a) (isoformat b) = Ok (connection_wait (a, b)).
Proof.
  intros Ha Hb. unfold hours_between.
  rewrite (fromisoformat_isoformat a Ha), (fromisoformat_isoformat b Hb).
  reflexivity.
Qed.

Lemma length_connections (segs : list segment) :
  connections segs = [] ↔ (length segs <= 1)%nat.
Proof.
  destruct segs as [|s [|s' rest]]; simpl; split; intros H; try done; lia.
Qed.

Lemma stopovers_loop_step (A : Args) (kind : leg_kind) (n : Z)
    (prev next : segment) (rest : list segment) :
  stopovers_loop A kind n (prev :: next :: rest)
  = (prev_arr ← fromisoformat (at_ (arrival prev));
     next_dep ← fromisoformat (at_ (departure next));
     wait_hr ← hours_between (isoformat prev_arr) (isoformat next_dep);
     if PrimFloat.ltb (stop_limits A kind (hour (dt_time prev_arr))) wait_hr
        || (max_stops A <? n - 1)
     then Ok false
     else stopovers_loop A kind n (next :: rest)).
Proof. reflexivity. Qed.

Lemma stopovers_loop_spec (A : Args) (kind : leg_kind) (n : Z)
    (segs : list segment) (conns : list (datetime * datetime)) :
  map_res read_connection (connections segs) = Ok conns →
  stopovers_loop A kind n segs
  = Ok (forallb (λ c, within_limit A kind c && (n - 1 <=? max_stops A)) conns).
Proof.
  revert conns.
  induction segs as [|prev rest IH]; intros conns H.
  { cbn in H. by inversion H. }
  destruct rest as [|next rest'].
  { cbn in H. by inversion H. }
  cbn [connections map_res] in H.
  apply bind_is_Ok in H as ([a b] & Hab & H).
  apply bind_is_Ok in H as (cs & Hcs & H). injection H as <-.
  unfold read_connection in Hab. cbn [fst snd] in Hab.
  apply bind_is_Ok in Hab as (a' & Ea & Hab).
  apply bind_is_Ok in Hab as (b' & Eb & Hab). injection Hab as -> ->.
  rewrite stopovers_loop_step, Ea, bind_Ok, Eb, bind_Ok.
  rewrite hours_between_isoformat by (by eapply fromisoformat_valid).
  rewrite bind_Ok, (IH cs Hcs). cbn [forallb].
  unfold within_limit at 2, exceeds, connection_limit. cbn [fst].
  destruct (PrimFloat.ltb (stop_limits A kind (hour (dt_time a)))
              (connection_wait (a, b))); cbn [orb negb andb]; [reflexivity|].
  destruct (Z.ltb_spec (max_stops A) (n - 1)), (Z.leb_spec (n - 1) (max_stops A));
    try lia; reflexivity.
Qed.

(** C10.  An itinerary of exactly one segment passes the stopover check for
    both leg kinds, whatever the stopover limits and whatever the value of
    [--max-stops], zero and negative values included: the loop over
    connections has nothing to visit. *)
Theorem single_segment_stopovers_ok :
  ∀ (A : Args) (kind : leg_kind) (dur : string) (seg : segment),
    stopovers_ok A {| duration := dur; segments := [seg] |} kind = Ok true.
Proof. intros A kind dur seg. reflexivity. Qed.

Definition day_hour (h : Z) : Prop := 6 <= h < 22.

Lemma day_period_day (h : Z) :
  String.eqb (day_period h) "day" = true ↔ day_hour h.
Proof.
  unfold day_period, day_hour.
  destruct (Z.leb_spec 6 h), (Z.ltb_spec h 22); cbn; split; intros; try done; lia.
Qed.

(** The claim on [stopovers_ok] as it is stated: the check passes exactly
    when every connection is within its limit and the number of
    connections is at most [--max-stops]. *)
Definition stopover_claim (A : Args) (kind : leg_kind) (itin : itinerary)
    (conns : list (datetime * datetime)) : Prop :=
  stopovers_ok A itin kind = Ok true
  ↔ (Forall (λ c, within_limit A kind c = true) conns
     ∧ Z.of_nat (length (segments itin)) - 1 <= max_stops A).

Definition no_limits (stops : Z) : Args :=
  {| origins := []; destinations := []; depart := None; ret := None;
     depart_start := None; depart_end := None;
     return_start := None; return_end := None;
     max_stay := None; range_length := None; range_start := None;
     filter_depart_days_time := None; filter_return_days_time := None;
     max_departure_stopover := None; max_return_stopover := None;
     nonstop := false; max_stops := stops; max_results := 5;
     one_way := false; allow_different_return_airport := false;
     sort_by := ["price"; "departure_date"; "duration"; "return_date"] |}.

Definition direct_flight : itinerary :=
  {| duration := "PT5H";
     segments :=
       [ {| departure := {| iataCode := "LHR"; at_ := "2025-06-01T10:00:00" |};
            arrival := {| iataCode := "EVN"; at_ := "2025-06-01T15:00:00" |} |} ] |}.

(** C3, counterexample.  With [--max-stops -1] a direct flight has 0
    connections, more than the bound, and still passes the check. *)
Lemma stopover_claim_fails_on_direct_flight :
  map_res read_connection (connections (segments direct_flight)) = Ok []
  ∧ ¬ stopover_claim (no_limits (-1)) departure_leg direct_flight [].
Proof.
  split; [reflexivity|].
  unfold stopover_claim. intros [H _].
  specialize (H eq_refl) as [_ H]. cbn in H. lia.
Qed.

(** C3, amended.  The limit of a connection: with two configured values the
    first holds when the hour of the arrival before the connection is in
    [6,22) and the second at every other hour; one value holds at every
    hour; with none the limit is infinite.  An itinerary whose connection
    timestamps can be read passes the check exactly when no wait exceeds
    the limit chosen by the hour of its connection and, if the itinerary
    has a connection at all, the number of connections is at most
    [--max-stops].  A wait equal to its limit does not exceed it. *)
Theorem stopover_check_spec :
  (∀ (A : Args) (kind : leg_kind) (h : Z),
     (∀ d n, max_stopover A kind = Some [d; n] →
        (day_hour h → stop_limits A kind h = d)
        ∧ (¬ day_hour h → stop_limits A kind h = n))
     ∧ (∀ v, max_stopover A kind = Some [v] → stop_limits A kind h = v)
     ∧ (max_stopover A kind = None ∨ max_stopover A kind = Some [] →
        stop_limits A kind h = infinity))
  ∧ (∀ (A : Args) (kind : leg_kind) (itin : itinerary)
       (conns : list (datetime * datetime)),
       map_res read_connection (connections (segments itin)) = Ok conns →
       (∃ b, stopovers_ok A itin kind = Ok b)
       ∧ (stopovers_ok A itin kind = Ok true
          ↔ Forall (λ c, exceeds (connection_wait c) (connection_limit A kind c)
                          = false) conns
            ∧ (conns = []
               ∨ Z.of_nat (length (segments itin)) - 1 <= max_stops A)))
  ∧ (∀ wait limit : float,
       PrimFloat.eqb limit wait = true → exceeds wait limit = false).
Proof.
  split; [|split].
  - intros A kind h. unfold stop_limits. repeat split.
    + intros Hd. rewrite H. cbn. by rewrite (proj2 (day_period_day h) Hd).
    + intros Hn. rewrite H. cbn.
      destruct (String.eqb (day_period h) "day") eqn:E; [|reflexivity].
      by apply day_period_day in E.
    + intros v ->. reflexivity.
    + by intros [-> | ->].
  - intros A kind itin conns Hc. unfold stopovers_ok.
    rewrite (stopovers_loop_spec A kind _ _ conns Hc).
    split; [eauto|].
    split.
    + intros [= H]. rewrite forallb_forall in H. split.
      * apply Forall_forall. intros c Hin.
        apply list_elem_of_In, H in Hin. apply andb_true_iff in Hin as [Hin _].
        unfold within_limit in Hin. by apply negb_true_iff in Hin.
      * destruct conns as [|c cs]; [by left|right].
        specialize (H c (or_introl eq_refl)).
        apply andb_true_iff in H as [_ H]. lia.
    + intros [Hall Hn]. f_equal. apply forallb_forall. intros c Hin.
      rewrite Forall_forall in Hall.
      apply list_elem_of_In, Hall in Hin as Hw.
      unfold within_limit. rewrite Hw. cbn.
      destruct Hn as [-> | Hn]; [by apply elem_of_nil in Hin | lia].
  - intros wait limit. unfold exceeds. apply float_eqb_not_ltb.
Qed.

Definition two_limits : Args :=
  {| origins := []; destinations := []; depart := None; ret := None;
     depart_start := None; depart_end := None;
     return_start := None; return_end := None;
     max_stay := None; range_length := None; range_start := None;
     filter_depart_days_time := None; filter_return_days_time := None;
     max_departure_stopover := Some [10%float; 6%float];
     max_return_stopover := None;
     nonstop := false; max_stops := 1; max_results := 5;
     one_way := false; allow_different_return_airport := false;
     sort_by := ["price"; "departure_date"; "duration"; "return_date"] |}.

(** Two flights with a change in Vienna: in at [arr], out at [dep]. *)
Definition via_vienna (arr dep : string) : itinerary :=
  {| duration := "PT14H";
     segments :=
       [ {| departure := {| iataCode := "LHR"; at_ := "2025-06-02T05:00:00" |};
            arrival := {| iataCode := "VIE"; at_ := arr |} |};
         {| departure := {| iataCode := "VIE"; at_ := dep |};
            arrival := {| iataCode := "EVN"; at_ := "2025-06-03T04:00:00" |} |} ] |}.

(** Limits 10 (day) and 6 (night): a wait of ten hours after an arrival at
    08:00 is accepted, 36 seconds more are not, and after an arrival at
    23:00 the limit is 6. *)
Example stopover_limit_examples :
  stop_limits two_limits departure_leg 8 = 10%float
  ∧ stop_limits two_limits departure_leg 23 = 6%float
  ∧ stopovers_ok two_limits
      (via_vienna "2025-06-02T08:00:00" "2025-06-02T18:00:00") departure_leg
    = Ok true
  ∧ stopovers_ok two_limits
      (via_vienna "2025-06-02T08:00:00" "2025-06-02T18:00:36") departure_leg
    = Ok false
  ∧ stopovers_ok two_limits
      (via_vienna "2025-06-02T23:00:00" "2025-06-03T05:00:00") departure_leg
    = Ok true
  ∧ stopovers_ok two_limits
      (via_vienna "2025-06-02T23:00:00" "2025-06-03T05:00:36") departure_leg
    = Ok false.
Proof. repeat split; vm_compute; reflexivity. Qed.

Definition vienna_times : datetime * datetime :=
  (DateTime (Date 739404) (Time 8 0 0), DateTime (Date 739404) (Time 18 0 0)).

Lemma stopover_check_spec_witness :
  (∃ b, stopovers_ok two_limits
          (via_vienna "2025-06-02T08:00:00" "2025-06-02T18:00:00")
          departure_leg = Ok b)
  ∧ (stopovers_ok two_limits
       (via_vienna "2025-06-02T08:00:00" "2025-06-02T18:00:00")
       departure_leg = Ok true
     ↔ Forall (λ c, exceeds (connection_wait c)
                      (connection_limit two_limits departure_leg c) = false)
         [vienna_times]
       ∧ ([vienna_times] = []
          ∨ Z.of_nat (length (segments
               (via_vienna "2025-06-02T08:00:00" "2025-06-02T18:00:00"))) - 1
            <= max_stops two_limits)).
Proof.
  apply (proj1 (proj2 stopover_check_spec) two_limits departure_leg
           (via_vienna "2025-06-02T08:00:00" "2025-06-02T18:00:00")
           [vienna_times]).
  vm_compute. reflexivity.
Defined.

(** ** C5: the day and time filter *)

(** The three-letter lower-case abbreviation of the weekday of a date. *)
Definition weekday_abbr (d : date) : string :=
  match weekday d with
  | 0 => "mon" | 1 => "tue" | 2 => "wed" | 3 => "thu"
  | 4 => "fri" | 5 => "sat" | _ => "sun"
  end.

Lemma filter_key_abbr (d : date) :
  take_str 3 (lower (strftime_a d)) = weekday_abbr d.
Proof.
  unfold strftime_a, weekday_abbr.
  destruct (weekday d) as [|p|p]; try reflexivity.
  do 3 (destruct p as [p|p|]; try reflexivity).
Qed.





Lemma day_filter_ok_empty (s : string) : day_filter_ok ∅ s = Ok true.
Proof. unfold day_filter_ok. by rewrite decide_True. Qed.

Lemma day_filter_ok_lookup (m : filter_map) (s : string) (t : datetime) :
  m ≠ ∅ → fromisoformat s = Ok t →
  day_filter_ok m s
  = match m !! weekday_abbr (dt_date t) with
    | None => Ok false
    | Some (start, end_) => Ok (time_in_window (dt_time t) start end_)
    end.
Proof.
  intros Hm Ht. unfold day_filter_ok.
  rewrite decide_False by done. rewrite Ht, bind_Ok, filter_key_abbr.
  reflexivity.
Qed.

(** A filter that allows Mondays from 22:00 to 02:00. *)
Definition monday_night : config :=
  {| ARGS := no_limits 1;
     DEPART_DAY_FILTER :=
       {[ "mon"%string := (Some (Time 22 0 0), Some (Time 2 0 0)) ]};
     RETURN_DAY_FILTER := ∅ |}.



(** ** The stable sort *)

Section SortedFacts.
Context {K A : Type} (lt : K → K → bool).

Lemma insert_by_perm (x : K * A) (l : list (K * A)) :
  insert_by lt x l ≡ₚ x :: l.
Proof.
  induction l as [|y l IH]; [done|]. simpl.
  destruct (lt (fst y) (fst x)); [|done].
  rewrite IH. apply Permutation_swap.
Qed.

Lemma sort_keyed_perm (l : list (K * A)) : sort_keyed lt l ≡ₚ l.
Proof.
  induction l as [|x l IH]; [done|]. simpl.
  rewrite insert_by_perm. by rewrite IH.
Qed.



(** With an asymmetric [<] the result is sorted: no entry is smaller than
    the one before it. *)
Definition not_after (x y : K * A) : Prop := lt (fst y) (fst x) = false.

Lemma insert_by_sorted (x : K * A) (l : list (K * A)) :
  (∀ a b, lt a b = true → lt b a = false) →
  Sorted not_after l → Sorted not_after (insert_by lt x l).
Proof.
  intros Hasym. induction l as [|y l IH]; intros Hs; simpl.
  - by repeat constructor.
  - destruct (lt (fst y) (fst x)) eqn:E.
    + apply Sorted_inv in Hs as [Hs Hhd]. constructor; [by apply IH|].
      destruct l as [|z l]; simpl.
      * constructor. unfold not_after. by apply Hasym.
      * destruct (lt (fst z) (fst x)).
        -- constructor. by apply HdRel_inv in Hhd.
        -- constructor. unfold not_after. by apply Hasym.
    + constructor; [done|]. by constructor.
Qed.

Lemma sort_keyed_sorted (l : list (K * A)) :
  (∀ a b, lt a b = true → lt b a = false) →
  Sorted not_after (sort_keyed lt l).
Proof.
  intros Hasym. induction l as [|x l IH]; simpl; [constructor|].
  by apply insert_by_sorted.
Qed.

End SortedFacts.

Lemma map_res_Ok {X} (l : list X) : map_res Ok l = Ok l.
Proof. induction l as [|x l IH]; [done|]. cbn. by rewrite IH. Qed.

Lemma zip_diag_snd {X} (l : list X) : map snd (zip l l) = l.
Proof. induction l as [|x l IH]; [done|]. cbn. by rewrite IH. Qed.

(** [sorted(s)] for a collection of distinct integers: the same integers in
    strictly ascending order. *)
Lemma sorted_ints (l0 : list Z) :
  NoDup l0 →
  ∃ l, sorted Z.ltb Ok l0 = Ok l ∧ l ≡ₚ l0 ∧ StronglySorted Z.lt l.
Proof.
  intros Hnd. unfold sorted. rewrite map_res_Ok, bind_Ok.
  set (s := sort_keyed Z.ltb (zip l0 l0)).
  assert (Hperm : s ≡ₚ zip l0 l0) by apply sort_keyed_perm.
  assert (Hdiag : Forall (λ p : Z * Z, fst p = snd p) s).
  { rewrite Hperm. clear. induction l0; constructor; done. }
  assert (Hsort : Sorted (not_after Z.ltb) s).
  { apply sort_keyed_sorted. intros a b H. apply Z.ltb_lt in H.
    apply Z.ltb_ge. lia. }
  exists (map snd s). split; [done|].
  assert (Hp : map snd s ≡ₚ l0).
  { rewrite Hperm. by rewrite zip_diag_snd. }
  split; [done|].
  assert (Hnd' : NoDup (map snd s)) by (by rewrite Hp).
  clear Hperm Hp. induction s as [|p s IH]; [constructor|].
  apply Sorted_inv in Hsort as [Hs Hhd].
  apply Forall_cons in Hdiag as [Hp Hdiag].
  cbn [map] in *. apply NoDup_cons in Hnd' as [Hnotin Hnd'].
  specialize (IH Hdiag Hs Hnd').
  constructor; [done|].
  destruct s as [|q s]; [constructor|].
  apply HdRel_inv in Hhd. unfold not_after in Hhd. apply Z.ltb_ge in Hhd.
  apply Forall_cons in Hdiag as [Hq _].
  assert (Hlt : snd p < snd q).
  { cbn [map] in Hnotin. rewrite not_elem_of_cons in Hnotin. lia. }
  cbn [map]. constructor; [done|].
  apply StronglySorted_inv in IH as [_ IH]. cbn [map] in IH.
  eapply Forall_impl; [exact IH|]. intros z Hz. cbn in Hz. lia.
Qed.

(** ** C7: stay-length tokens *)





(** What one token adds to the set, for any text. *)
Definition token_nights (tok : string) : res (gset Z) := expand_token tok ∅.






Lemma expand_token_union (tok : string) (S : gset Z) :
  expand_token tok S = (T ← token_nights tok; Ok (S ∪ T)).
Proof.
  unfold token_nights, expand_token.
  destruct (contains "-" tok).
  - destruct (unpack2_int (split "-" tok)) as [[a b]|e]; cbn.
    + by rewrite (left_id_L ∅ (∪)).
    + by destruct e.
  - destruct (int_of_str tok) as [n|e]; cbn.
    + by rewrite (left_id_L ∅ (∪)).
    + by destruct e.
Qed.


Lemma for_expand_token (toks : list string) : ∀ (S S' : gset Z),
  for_ toks expand_token S = Ok S' →
  Forall (λ tok, ∃ T, token_nights tok = Ok T) toks
  ∧ ∀ n, n ∈ S' ↔ n ∈ S ∨ ∃ tok T, tok ∈ toks ∧ token_nights tok = Ok T ∧ n ∈ T.
Proof.
  induction toks as [|tok toks IH]; intros S S' H.
  - cbn in H. injection H as <-. split; [constructor|].
    intros n. split; [by left|]. intros [H|(tok & T & Hin & _)]; [done|].
    by apply elem_of_nil in Hin.
  - cbn [for_] in H. apply bind_is_Ok in H as (S1 & H1 & H).
    rewrite expand_token_union in H1.
    apply bind_is_Ok in H1 as (T & HT & H1). injection H1 as <-.
    destruct (IH _ _ H) as [Hall Hmem]. split.
    + constructor; [by exists T|done].
    + intros n. rewrite Hmem, elem_of_union. split.
      * intros [[Hn|Hn]|(tok' & T' & Hin & HT' & Hn)].
        -- by left.
        -- right. exists tok, T. split; [left|done].
        -- right. exists tok', T'. split; [by right|done].
      * intros [Hn|(tok' & T' & Hin & HT' & Hn)]; [by left; left|].
        apply elem_of_cons in Hin as [->|Hin].
        -- left; right. congruence.
        -- right. by exists tok', T'.
Qed.


(** The result of [expand_stay_durations] when it returns: strictly
    ascending, and holding exactly what the tokens add. *)
Lemma expand_stay_durations_spec (toks : list string) (l : list Z) :
  expand_stay_durations toks = Ok l →
  StronglySorted Z.lt l
  ∧ ∀ n, n ∈ l ↔ ∃ tok T, tok ∈ toks ∧ token_nights tok = Ok T ∧ n ∈ T.
Proof.
  unfold expand_stay_durations. intros H.
  apply bind_is_Ok in H as (S & HS & H).
  destruct (sorted_ints (elements S) (NoDup_elements S)) as (l' & Hl' & Hp & Hs).
  rewrite Hl' in H. injection H as <-. split; [done|].
  intros n. rewrite Hp, elem_of_elements.
  destruct (for_expand_token toks ∅ S HS) as [_ Hmem].
  rewrite Hmem. split; [|by right].
  intros [Hn|Hn]; [|done]. by apply not_elem_of_empty in Hn.
Qed.




(** ** C1, C2: the date pairs *)

(** The stay lengths [make_date_pairs] works with: the expansion of
    [--max-stay], or nothing when the option is absent. *)
Definition stay_lengths (A : Args) : res (list Z) :=
  match max_stay A with
  | Some (t :: ts) => expand_stay_durations (t :: ts)
  | _ => Ok []
  end.


(** A bound of the return window, when one is given. *)
Definition return_bound (o : option string) : res (option date) :=
  if truthy o then dt ← fromisoformat (text o); Ok (Some (dt_date dt))
  else Ok None.

Definition in_return_window (lo hi : option date) (r : Z) : bool :=
  match lo with Some l => toordinal l <=? r | None => true end
  && match hi with Some h => r <=? toordinal h | None => true end.

(** The pair for departure on day [d] and a stay of [stay] nights, days
    being ordinals. *)
Definition date_pair (d stay : Z) : string * string :=
  (date_isoformat (Date d), date_isoformat (Date (d + stay))).

(** The pairs for the given days and stays, days outermost, a pair being
    kept when its return day passes [keep]. *)
Definition pair_grid (keep : Z → bool) (days stays : list Z)
  : list (string * string) :=
  concat (map (λ d, concat (map (λ stay, if keep (d + stay)
                                         then [date_pair d stay] else [])
                              stays))
            days).

Lemma for_collect {X Y} (xs : list X) (body : X → list Y → res (list Y))
    (f : X → list Y) :
  (∀ x acc, x ∈ xs → body x acc = Ok (acc ++ f x)) →
  ∀ acc, for_ xs body acc = Ok (acc ++ concat (map f xs)).
Proof.
  induction xs as [|x xs IH]; intros Hbody acc; cbn.
  - by rewrite app_nil_r.
  - rewrite Hbody by left.
    rewrite bind_Ok, IH by (intros; apply Hbody; by right).
    by rewrite app_assoc.
Qed.

Lemma date_add_days_ok (d n : Z) :
  1 <= d + n <= MAXORDINAL → date_add_days (Date d) n = Ok (Date (d + n)).
Proof.
  intros H. unfold date_add_days. cbn [toordinal].
  destruct (Z.leb_spec 1 (d + n)), (Z.leb_spec (d + n) MAXORDINAL);
    try lia; reflexivity.
Qed.



Definition rolling_example : Args :=
  {| origins := ["LHR"]; destinations := ["EVN"]; depart := None; ret := None;
     depart_start := None; depart_end := None;
     return_start := None; return_end := None;
     max_stay := Some ["3"; "5"]; range_length := Some "2 days";
     range_start := Some "2025-06-01";
     filter_depart_days_time := None; filter_return_days_time := None;
     max_departure_stopover := None; max_return_stopover := None;
     nonstop := false; max_stops := 1; max_results := 5;
     one_way := false; allow_different_return_airport := false;
     sort_by := ["price"; "departure_date"; "duration"; "return_date"] |}.


Example rolling_window_example :
  make_date_pairs (Date 739000) (λ _, Ok 2) rolling_example
  = Ok [("2025-06-01", "2025-06-04"); ("2025-06-01", "2025-06-06");
        ("2025-06-02", "2025-06-05"); ("2025-06-02", "2025-06-07")]%string.
Proof. vm_compute. reflexivity. Qed.

Lemma return_bound_check (o : option string) (b : option date)
    (g : date → bool) :
  return_bound o = Ok b →
  (if truthy o then dt ← fromisoformat (text o); Ok (g (dt_date dt))
   else Ok false)
  = Ok (match b with Some l => g l | None => false end).
Proof.
  unfold return_bound. destruct (truthy o).
  - intros H. apply bind_is_Ok in H as (dt & -> & H). by injection H as <-.
  - by intros [= <-].
Qed.

Lemma depart_loop_step (A : Args) (stays : list Z) (fuel : nat)
    (start end_ : date) (pairs : list (string * string)) :
  depart_loop A stays (S fuel) start end_ pairs
  = if date_leb start end_ then
      pairs' ←
        for_ stays
          (λ stay pairs,
             ret_d ← date_add_days start stay;
             early ←
               (if truthy (return_start A) then
                  dt ← fromisoformat (text (return_start A));
                  Ok (date_ltb ret_d (dt_date dt))
                else Ok false);
             if (early : bool) then Ok pairs else
             late ←
               (if truthy (return_end A) then
                  dt ← fromisoformat (text (return_end A));
                  Ok (date_ltb (dt_date dt) ret_d)
                else Ok false);
             if (late : bool) then Ok pairs else
             Ok (pairs ++ [(date_isoformat start, date_isoformat ret_d)]))
          pairs;
      start' ← date_add_days start 1;
      depart_loop A stays fuel start' end_ pairs'
    else Ok pairs.
Proof. reflexivity. Qed.

Lemma depart_loop_pairs (A : Args) (stays : list Z) (lo hi : option date)
    (end_ : Z) :
  return_bound (return_start A) = Ok lo →
  return_bound (return_end A) = Ok hi →
  end_ < MAXORDINAL →
  ∀ (k : nat) (start : Z) (fuel : nat) (pairs : list (string * string)),
    Z.of_nat k = Z.max 0 (end_ - start + 1) →
    (k < fuel)%nat →
    1 <= start →
    (∀ d stay, start <= d <= end_ → stay ∈ stays →
       1 <= d + stay <= MAXORDINAL) →
    depart_loop A stays fuel (Date start) (Date end_) pairs
    = Ok (pairs ++ pair_grid (in_return_window lo hi)
                     (seqZ start (Z.of_nat k)) stays).
Proof.
  intros Hlo Hhi Hend.
  induction k as [|k IH]; intros start fuel pairs Hk Hfuel Hstart Hrep;
    (destruct fuel as [|fuel]; [lia|]); rewrite depart_loop_step;
    unfold date_leb; cbn [toordinal].
  - destruct (Z.leb_spec start end_); [lia|].
    cbn. by rewrite app_nil_r.
  - destruct (Z.leb_spec start end_); [|lia].
    rewrite (for_collect stays _
               (λ stay, if in_return_window lo hi (start + stay)
                        then [date_pair start stay] else [])).
    + rewrite bind_Ok, date_add_days_ok, bind_Ok by lia.
      rewrite (IH (start + 1) fuel)
        by first [lia | intros; apply Hrep; [lia|done]].
      rewrite <- app_assoc. f_equal. f_equal.
      replace (Z.of_nat (S k)) with (Z.succ (Z.of_nat k)) by lia.
      rewrite (seqZ_cons start) by lia. unfold pair_grid. cbn [map concat].
      by rewrite Z.pred_succ.
    + intros stay acc Hs.
      rewrite date_add_days_ok, bind_Ok by (apply Hrep; [lia|done]).
      rewrite (return_bound_check _ lo (λ l, date_ltb (Date (start + stay)) l))
        by done.
      rewrite bind_Ok.
      rewrite (return_bound_check _ hi (λ h, date_ltb h (Date (start + stay))))
        by done.
      unfold in_return_window, date_ltb, date_pair. cbn [toordinal].
      destruct lo as [[l]|], hi as [[h]|]; cbn [toordinal];
        repeat match goal with
               | |- context [?a <? ?b] => destruct (Z.ltb_spec a b)
               | |- context [?a <=? ?b] => destruct (Z.leb_spec a b)
               end; cbn; try lia; try reflexivity; by rewrite ?app_nil_r.
Qed.

Definition range_example : Args :=
  {| origins := ["LHR"]; destinations := ["EVN"]; depart := None; ret := None;
     depart_start := Some "2025-06-01"; depart_end := Some "2025-06-02";
     return_start := None; return_end := None;
     max_stay := Some ["3"; "5"]; range_length := None; range_start := None;
     filter_depart_days_time := None; filter_return_days_time := None;
     max_departure_stopover := None; max_return_stopover := None;
     nonstop := false; max_stops := 1; max_results := 5;
     one_way := false; allow_different_return_airport := false;
     sort_by := ["price"; "departure_date"; "duration"; "return_date"] |}.

(** C2.  In a range specification, that is no [--range-length], a
    departure window from [--depart-start] to [--depart-end] and a
    non-empty expansion of [--max-stay], [make_date_pairs] returns exactly
    the pairs (d, d + stay) for the days d of the window in ascending order
    and, within one day, for the stays in ascending order, leaving out
    without an error every pair whose return day is before
    [--return-start] or after [--return-end] when these are given.  The
    dates named and the day after the window must exist, that is lie
    between 0001-01-01 and 9999-12-31.  The window 2025-06-01 to 2025-06-02
    with stays 3 and 5 gives the four pairs of the example, in that
    order. *)
Theorem range_stay_pairs :
  (∀ (today : date) (parse_range_length : string → res Z) (A : Args)
     (stays : list Z) (start end_ : datetime) (lo hi : option date),
     truthy (range_length A) = false →
     truthy (depart_start A) = true → truthy (depart_end A) = true →
     stay_lengths A = Ok stays → stays ≠ [] →
     fromisoformat (text (depart_start A)) = Ok start →
     fromisoformat (text (depart_end A)) = Ok end_ →
     return_bound (return_start A) = Ok lo →
     return_bound (return_end A) = Ok hi →
     toordinal (dt_date end_) < MAXORDINAL →
     (∀ d stay,
        toordinal (dt_date start) <= d <= toordinal (dt_date end_) →
        stay ∈ stays → 1 <= d + stay <= MAXORDINAL) →
     make_date_pairs today parse_range_length A
     = Ok (pair_grid (in_return_window lo hi)
             (seqZ (toordinal (dt_date start))
                (toordinal (dt_date end_) - toordinal (dt_date start) + 1))
             stays)
     ∧ StronglySorted Z.lt stays)
  ∧ (∀ (today : date) (parse_range_length : string → res Z),
       make_date_pairs today parse_range_length range_example
       = Ok [("2025-06-01", "2025-06-04"); ("2025-06-01", "2025-06-06");
             ("2025-06-02", "2025-06-05"); ("2025-06-02", "2025-06-07")]%string).
Proof.
  split; [|intros; vm_compute; reflexivity].
  intros today prl A stays start end_ lo hi Hlen Hds Hde Hstays Hne
    Hstart Hend Hlo Hhi Hmax Hrep.
  split.
  - unfold make_date_pairs. fold (stay_lengths A). rewrite Hstays, bind_Ok.
    rewrite Hlen, Hds, Hde. destruct stays as [|s0 stays']; [done|].
    cbn [is_nil negb andb]. rewrite Hstart, bind_Ok, Hend, bind_Ok.
    destruct (fromisoformat_valid _ _ Hstart) as [[Hs1 _] _].
    destruct start as [[s] ts], end_ as [[e] te]. cbn [dt_date toordinal] in *.
    rewrite (depart_loop_pairs A (s0 :: stays') lo hi e Hlo Hhi Hmax
               (Z.to_nat (Z.max 0 (e - s + 1))) s); try lia; try done.
    rewrite app_nil_l. f_equal. f_equal.
    rewrite Z2Nat.id by lia. unfold seqZ. f_equal. f_equal. lia.
  - unfold stay_lengths in Hstays.
    destruct (max_stay A) as [[|t ts]|]; try (injection Hstays as <-; done).
    by destruct (expand_stay_durations_spec _ _ Hstays).
Qed.

Lemma range_stay_pairs_witness :
  make_date_pairs (Date 739000) (λ _, Raise ValueError) range_example
  = Ok (pair_grid (in_return_window None None)
          (seqZ 739403 (739404 - 739403 + 1)) [3; 5])
  ∧ StronglySorted Z.lt [3; 5].
Proof.
  apply (proj1 range_stay_pairs (Date 739000) (λ _, Raise ValueError)
           range_example [3; 5]
           (DateTime (Date 739403) (Time 0 0 0))
           (DateTime (Date 739404) (Time 0 0 0)) None None).
  - reflexivity.
  - reflexivity.
  - reflexivity.
  - vm_compute. reflexivity.
  - discriminate.
  - vm_compute. reflexivity.
  - vm_compute. reflexivity.
  - reflexivity.
  - reflexivity.
  - unfold MAXORDINAL. simpl. lia.
  - intros d stay Hd Hs. unfold MAXORDINAL. cbn [toordinal dt_date] in Hd.
    rewrite !elem_of_cons, elem_of_nil in Hs. lia.
Defined.

(** A return window drops the pairs that fall outside it. *)
Example range_with_return_window :
  make_date_pairs (Date 739000) (λ _, Raise ValueError)
    {| origins := ["LHR"]; destinations := ["EVN"]; depart := None; ret := None;
       depart_start := Some "2025-06-01"; depart_end := Some "2025-06-02";
       return_start := Some "2025-06-05"; return_end := Some "2025-06-06";
       max_stay := Some ["3"; "5"]; range_length := None; range_start := None;
       filter_depart_days_time := None; filter_return_days_time := None;
       max_departure_stopover := None; max_return_stopover := None;
       nonstop := false; max_stops := 1; max_results := 5;
       one_way := false; allow_different_return_airport := false;
       sort_by := ["price"] |}
  = Ok [("2025-06-01", "2025-06-06"); ("2025-06-02", "2025-06-05")]%string.
Proof. vm_compute. reflexivity. Qed.

(** An empty window gives no pair. *)
Example range_empty_window :
  make_date_pairs (Date 739000) (λ _, Raise ValueError)
    {| origins := ["LHR"]; destinations := ["EVN"]; depart := None; ret := None;
       depart_start := Some "2025-06-10"; depart_end := Some "2025-06-02";
       return_start := None; return_end := None;
       max_stay := Some ["3"; "5"]; range_length := None; range_start := None;
       filter_depart_days_time := None; filter_return_days_time := None;
       max_departure_stopover := None; max_return_stopover := None;
       nonstop := false; max_stops := 1; max_results := 5;
       one_way := false; allow_different_return_airport := false;
       sort_by := ["price"] |}
  = Ok [].
Proof. vm_compute. reflexivity. Qed.

(** ** C6: ranking *)

(** Two floats that [==] holds for: two zeros, the same infinity, or the
    same finite number. *)
Definition sf_same (a b : spec_float) : Prop :=
  match a, b with
  | S754_zero _, S754_zero _ => True
  | S754_infinity s, S754_infinity s' => s = s'
  | S754_finite s m e, S754_finite s' m' e' => s = s' ∧ m = m' ∧ e = e'
  | _, _ => False
  end.

Lemma SFcompare_finite_Eq (s s' : bool) (m m' : positive) (e e' : Z) :
  SFcompare (S754_finite s m e) (S754_finite s' m' e') = Some Eq
  ↔ s = s' ∧ m = m' ∧ e = e'.
Proof.
  cbn. change (PosDef.Pos.compare_cont Eq m m') with (Pos.compare m m').
  destruct (Z.compare_spec e e') as [->|He|He],
           (Pos.compare_spec m m') as [->|Hm|Hm], s, s'; cbn;
    split; try discriminate; try done; intros (? & ? & ?); try discriminate; lia.
Qed.

Lemma SFcompare_Eq (a b : spec_float) :
  SFcompare a b = Some Eq ↔ sf_same a b.
Proof.
  destruct a as [s|s| |s m e], b as [s'|s'| |s' m' e'];
    first [ apply SFcompare_finite_Eq
          | cbn; repeat match goal with x : bool |- _ => destruct x end;
            split; first [discriminate | tauto | done] ].
Qed.







Lemma map_res_Forall2 {X Y} (f : X → res Y) (xs : list X) : ∀ ys,
  map_res f xs = Ok ys → Forall2 (λ x y, f x = Ok y) xs ys.
Proof.
  induction xs as [|x xs IH]; intros ys H; cbn in H.
  - injection H as <-. constructor.
  - apply bind_is_Ok in H as (y & Hy & H).
    apply bind_is_Ok in H as (ys' & Hys & H). injection H as <-.
    constructor; [done|by apply IH].
Qed.



Definition same_price_offer (dur : string) : offer :=
  {| price_total := "100.00";
     itineraries :=
       [ {| duration := dur;
            segments :=
              [ {| departure := {| iataCode := "LHR"; at_ := "2025-06-01T10:00:00" |};
                   arrival := {| iataCode := "EVN"; at_ := "2025-06-01T18:00:00" |} |} ] |} ] |}.





(** ** Computations that only print *)

(** [io_post m P]: whatever the world, [m] returns the same result [r] and
    appends the same events [out] to the output, touching nothing else,
    and [P r out] holds. *)
Definition io_post {A} (m : io A) (P : res A → list event → Prop) : Prop :=
  ∃ r out,
    (∀ w, m w = (r, World (stdout w ++ out) (ALL_MATCHES w) (requests w)))
    ∧ P r out.

Lemma io_post_ret {A} (a : A) (P : res A → list event → Prop) :
  P (Ok a) [] → io_post (mret a) P.
Proof.
  intros H. exists (Ok a), []. split; [|done].
  intros [out ms n]. cbn. by rewrite app_nil_r.
Qed.

Lemma io_post_lift {A} (r : res A) (P : res A → list event → Prop) :
  P r [] → io_post (lift r) P.
Proof.
  intros H. exists r, []. split; [|done].
  intros [out ms n]. cbn. unfold lift. by rewrite app_nil_r.
Qed.

Lemma io_post_print (e : event) (P : res unit → list event → Prop) :
  P (Ok tt) [e] → io_post (print e) P.
Proof. intros H. exists (Ok tt), [e]. split; [|done]. by intros w. Qed.

Lemma io_post_bind {A B} (m : io A) (k : A → io B)
    (P : res B → list event → Prop) :
  io_post m (λ r out,
     match r with
     | Ok a => io_post (k a) (λ r' out', P r' (out ++ out'))
     | Raise e => P (Raise e) out
     end) →
  io_post (m ≫= k) P.
Proof.
  intros (r & out & Hm & H). destruct r as [a|e].
  - destruct H as (r' & out' & Hk & H). exists r', (out ++ out').
    split; [|done]. intros w. unfold mbind, io_bind. rewrite Hm, Hk. cbn.
    by rewrite app_assoc.
  - exists (Raise e), out. split; [|done].
    intros w. unfold mbind, io_bind. by rewrite Hm.
Qed.

Lemma io_post_mono {A} (m : io A) (P Q : res A → list event → Prop) :
  (∀ r out, P r out → Q r out) → io_post m P → io_post m Q.
Proof. intros HPQ (r & out & Hm & H). exists r, out. auto. Qed.

Lemma io_post_conj {A} (m : io A) (P Q : res A → list event → Prop) :
  io_post m P → io_post m Q → io_post m (λ r out, P r out ∧ Q r out).
Proof.
  intros (r & out & Hm & HP) (r' & out' & Hm' & HQ).
  pose proof (Hm (World [] [] 0)) as E. rewrite Hm' in E. cbn in E.
  injection E as -> ->. exists r, out. auto.
Qed.

Definition empty_world : world := World [] [] 0.

(** The result of a computation and what it prints, taken from a run in
    the empty world. *)
Definition result_of {A} (m : io A) : res A := fst (m empty_world).
Definition output_of {A} (m : io A) : list event := stdout (snd (m empty_world)).

Lemma io_post_run {A} (m : io A) (P : res A → list event → Prop) :
  io_post m P →
  P (result_of m) (output_of m)
  ∧ ∀ w, m w = (result_of m,
                World (stdout w ++ output_of m) (ALL_MATCHES w) (requests w)).
Proof.
  intros (r & out & Hm & H). unfold result_of, output_of.
  rewrite (Hm empty_world). cbn. split; [done|]. intros w. by rewrite Hm.
Qed.

(** The offers whose block was printed. *)
Definition offers_shown (out : list event) : list offer :=
  omap (λ e, match e with PrOffer o _ _ _ => Some o | _ => None end) out.

Lemma offers_shown_app (a b : list event) :
  offers_shown (a ++ b) = offers_shown a ++ offers_shown b.
Proof. apply omap_app. Qed.

(** One step of a proof about a printing computation. *)
Ltac io_step :=
  first
    [ apply io_post_ret
    | apply io_post_lift
    | apply io_post_print
    | apply io_post_bind
    | match goal with
      | |- match ?r with Ok _ => _ | Raise _ => _ end => destruct r eqn:?
      | |- io_post (if ?b then _ else _) _ => destruct b eqn:?
      | |- io_post (match ?x with _ => _ end) _ => destruct x eqn:?
      end ].

(** Printing the stopovers prints nothing else. *)
Lemma print_stopovers_post (segs : list segment)
    (P : res unit → list event → Prop) :
  (∀ r out, offers_shown out = [] → P r out) →
  io_post (print_stopovers segs) P.
Proof.
  revert P. induction segs as [|prev rest IH]; intros P HP.
  { cbn. apply io_post_ret. by apply HP. }
  destruct rest as [|next rest'].
  { cbn. apply io_post_ret. by apply HP. }
  change (print_stopovers (prev :: next :: rest'))
    with (prev_arr ← lift (fromisoformat (at_ (arrival prev)));
          next_dep ← lift (fromisoformat (at_ (departure next)));
          _ ← print (PrStopover (iataCode (departure next))
                       (PrimFloat.div
                          (total_seconds (datetime_sub next_dep prev_arr)) 3600));
          print_stopovers (next :: rest')).
  repeat io_step; try (by apply HP).
  apply IH. intros r out Hout. apply HP.
  rewrite !offers_shown_app, Hout. reflexivity.
Qed.

Ltac io_auto :=
  repeat first
    [ io_step
    | apply print_stopovers_post; intros ? ? ?
    | progress (rewrite ?offers_shown_app, ?app_nil_r; cbn [offers_shown omap app]) ];
  try done.

(** The filtering part of the loop body prints no offer block. *)
Lemma offer_filters_quiet (G : config) (o : offer) :
  io_post (offer_filters G o) (λ _ out, offers_shown out = []).
Proof.
  unfold offer_filters. io_auto.
Qed.

(** In one-way mode it prints nothing at all. *)
Lemma offer_filters_one_way (G : config) (o : offer) :
  one_way (ARGS G) = true →
  io_post (offer_filters G o)
    (λ r out, out = []
       ∧ ∀ locals, r = Ok (Some locals) → snd locals = None).
Proof.
  intros H. unfold offer_filters. rewrite H. cbn [negb].
  io_auto; split; try done; intros locals [= <-]; done.
Qed.

Ltac shown_leaf :=
  rewrite ?offers_shown_app, ?app_nil_r; cbn [offers_shown omap app];
  repeat match goal with H : offers_shown _ = [] |- _ => rewrite H end;
  cbn [app];
  first [ left; split; [reflexivity|reflexivity]
        | right; split; [eauto|]; first [by left | by right] ].

(** The printing part prints the block of its offer, once; when it raises,
    it does so before the block or within it. *)
Lemma print_offer_post (o : offer) (locals : offer_locals) :
  io_post (print_offer o locals)
    (λ r out,
       (r = Ok tt ∧ offers_shown out = [o])
       ∨ ((∃ e, r = Raise e)
          ∧ (offers_shown out = [] ∨ offers_shown out = [o]))).
Proof.
  destruct locals as [[[to_itin from_itin] dep_seg] ret_seg].
  unfold print_offer.
  repeat first
    [ io_step
    | apply print_stopovers_post; intros ? ? ? ];
    shown_leaf.
Qed.

(** Without a return segment it raises before it prints. *)
Lemma print_offer_no_return (o : offer) (to_itin from_itin : itinerary)
    (dep_seg : segment) :
  io_post (print_offer o (to_itin, from_itin, dep_seg, None))
    (λ r out, (∃ e, r = Raise e) ∧ out = []).
Proof. unfold print_offer. io_auto; eauto. Qed.

(** ** C9: one block per deduplication key *)

(** The outcome of the filters for an offer: an exception, [Ok None] for an
    offer that is skipped, [Ok (Some locals)] for one that passes. *)
Definition verdict (G : config) (o : offer) : res (option offer_locals) :=
  result_of (offer_filters G o).


(** The offers that pass the filters, in input order, each with its key. *)
Definition passed (G : config) (offers : list offer) : list (seen_key * offer) :=
  omap (λ o, match verdict G o with
             | Ok (Some locals) => Some (key_of o locals, o)
             | _ => None
             end) offers.

(** Of a list of keyed offers, those whose key is not among [before] nor
    among the keys of the entries in front of them. *)
Fixpoint first_per_key (before : list seen_key) (l : list (seen_key * offer))
  : list (seen_key * offer) :=
  match l with
  | [] => []
  | (k, o) :: l' =>
      if decide (k ∈ before) then first_per_key (k :: before) l'
      else (k, o) :: first_per_key (k :: before) l'
  end.

Lemma io_post_result {A} (m : io A) (P : res A → list event → Prop) :
  io_post m P → io_post m (λ r out, P r out ∧ r = result_of m).
Proof.
  intros H. destruct (io_post_run m P H) as [HP Hm].
  exists (result_of m), (output_of m). auto.
Qed.



(** An entry is kept exactly when it is the first one with its key. *)
Lemma first_per_key_first (l1 l2 : list (seen_key * offer)) (k : seen_key)
    (o : offer) : ∀ before,
  k ∉ before → k ∉ map fst l1 →
  (k, o) ∈ first_per_key before (l1 ++ (k, o) :: l2).
Proof.
  induction l1 as [|[k' o'] l1 IH]; intros before Hb Hl; cbn.
  - rewrite decide_False by done. by left.
  - cbn in Hl. apply not_elem_of_cons in Hl as [Hne Hl].
    assert (k ∉ k' :: before) by (apply not_elem_of_cons; done).
    destruct (decide (k' ∈ before)); [by apply IH|right; by apply IH].
Qed.

Lemma display_offer_post (G : config) (o : offer) (seen : gset seen_key) :
  io_post (display_offer G o seen)
    (λ r out,
       match verdict G o with
       | Ok (Some locals) =>
           if decide (key_of o locals ∈ seen)
           then r = Ok seen ∧ offers_shown out = []
           else (r = Ok (seen ∪ {[ key_of o locals ]})
                 ∧ offers_shown out = [o])
                ∨ ((∃ e, r = Raise e)
                   ∧ (offers_shown out = [] ∨ offers_shown out = [o]))
       | Ok None => r = Ok seen ∧ offers_shown out = []
       | Raise e => r = Raise e ∧ offers_shown out = []
       end).
Proof.
  unfold display_offer. apply io_post_bind.
  eapply io_post_mono; [|apply io_post_result, offer_filters_quiet].
  cbn beta. intros r out [Hq ->]. fold (verdict G o).
  destruct (verdict G o) as [[locals|]|e]; [| |done].
  - destruct (decide (key_of o locals ∈ seen)).
    + apply io_post_ret. by rewrite app_nil_r.
    + apply io_post_bind.
      eapply io_post_mono; [|apply print_offer_post].
      cbn beta. intros r' out' H.
      destruct r' as [[]|e].
      * apply io_post_ret. rewrite app_nil_r, offers_shown_app, Hq. cbn [app].
        destruct H as [[_ H]|[[e He] _]]; [by left|discriminate].
      * rewrite offers_shown_app, Hq. cbn [app]. right. split; [eauto|].
        destruct H as [[? _]|[_ H]]; [discriminate|done].
  - apply io_post_ret. by rewrite app_nil_r.
Qed.

Lemma display_loop_post (G : config) (offers : list offer) :
  ∀ (seen : gset seen_key) (before : list seen_key),
    (∀ k, k ∈ seen ↔ k ∈ before) →
    io_post (for_io offers (display_offer G) seen)
      (λ r out,
         offers_shown out `prefix_of`
           map snd (first_per_key before (passed G offers))
         ∧ (is_ok r = true →
            offers_shown out = map snd (first_per_key before (passed G offers)))).
Proof.
  induction offers as [|o offers IH]; intros seen before Hseen.
  { cbn. apply io_post_ret. split; [apply prefix_nil|done]. }
  cbn [for_io]. apply io_post_bind.
  eapply io_post_mono; [|apply display_offer_post].
  cbn beta. intros r out H. unfold passed. cbn [omap list_omap].
  fold (passed G offers).
  destruct (verdict G o) as [[locals|]|e]; cbn [mbind option_bind].
  - cbn [first_per_key].
    destruct (decide (key_of o locals ∈ seen)) as [Hin|Hnin].
    + destruct H as [-> Hout].
      rewrite decide_True by (by apply Hseen).
      eapply io_post_mono; [|apply (IH seen (key_of o locals :: before))].
      * cbn beta. intros r' out'. by rewrite offers_shown_app, Hout.
      * intros k. rewrite elem_of_cons, <- Hseen. split; [by right|].
        intros [->|]; done.
    + rewrite decide_False by (by rewrite <- Hseen). cbn [map snd].
      destruct H as [[-> Hout]|[[e ->] Hout]].
      * eapply io_post_mono;
          [|apply (IH (seen ∪ {[key_of o locals]}) (key_of o locals :: before))].
        -- cbn beta. intros r' out' [Hp Hok].
           rewrite offers_shown_app, Hout. cbn [app].
           split; [by apply prefix_cons|]. intros Hr. by rewrite Hok.
        -- intros k. rewrite elem_of_union, elem_of_singleton, elem_of_cons.
           rewrite Hseen. tauto.
      * split; [|done].
        destruct Hout as [-> | ->]; [apply prefix_nil|].
        apply prefix_cons, prefix_nil.
  - destruct H as [-> Hout].
    eapply io_post_mono; [|apply (IH seen before Hseen)].
    cbn beta. intros r' out'. by rewrite offers_shown_app, Hout.
  - destruct H as [-> Hout]. rewrite Hout. split; [apply prefix_nil|done].
Qed.



(** A return trip London-Yerevan, and the settings under which the
    presenter lets it through. *)
Definition return_trip (price out_dep back_dep back_arr : string) : offer :=
  {| price_total := price;
     itineraries :=
       [ {| duration := "PT5H";
            segments :=
              [ {| departure := {| iataCode := "LHR"; at_ := out_dep |};
                   arrival := {| iataCode := "EVN"; at_ := "2025-06-01T18:00:00" |} |} ] |};
         {| duration := "PT5H30M";
            segments :=
              [ {| departure := {| iataCode := "EVN"; at_ := back_dep |};
                   arrival := {| iataCode := "LHR"; at_ := back_arr |} |} ] |} ] |}.

Definition any_airport (one_way_mode : bool) : config :=
  {| ARGS :=
       {| origins := ["LHR"]; destinations := ["EVN"];
          depart := Some "2025-06-01"; ret := Some "2025-06-05";
          depart_start := None; depart_end := None;
          return_start := None; return_end := None;
          max_stay := None; range_length := None; range_start := None;
          filter_depart_days_time := None; filter_return_days_time := None;
          max_departure_stopover := None; max_return_stopover := None;
          nonstop := false; max_stops := 1; max_results := 5;
          one_way := one_way_mode; allow_different_return_airport := true;
          sort_by := ["price"; "departure_date"; "duration"; "return_date"] |};
     DEPART_DAY_FILTER := ∅;
     RETURN_DAY_FILTER := ∅ |}.

Definition trip_a : offer :=
  return_trip "210.50" "2025-06-01T10:00:00" "2025-06-05T09:00:00"
    "2025-06-05T14:30:00".
Definition trip_a_again : offer :=
  return_trip "210.50" "2025-06-01T10:00:00" "2025-06-05T09:00:00"
    "2025-06-05T15:00:00".
Definition trip_b : offer :=
  return_trip "199.00" "2025-06-01T07:00:00" "2025-06-05T09:00:00"
    "2025-06-05T14:30:00".

(** Four offers, the second and the fourth with the key of the first: two
    blocks are printed, for the first and the third. *)
Example presenter_example :
  let '(r, w) :=
    display_offers (any_airport false)
      [trip_a; trip_a_again; trip_b; trip_a] empty_world in
  r = Ok tt ∧ offers_shown (stdout w) = [trip_a; trip_b].
Proof. vm_compute. split; reflexivity. Qed.

(** ** C4: one-way mode *)

Lemma display_offer_one_way (G : config) (o : offer) :
  one_way (ARGS G) = true →
  io_post (display_offer G o ∅)
    (λ r out,
       out = []
       ∧ match verdict G o with
         | Ok None => r = Ok ∅
         | _ => ∃ e, r = Raise e
         end).
Proof.
  intros Hone. unfold display_offer. apply io_post_bind.
  eapply io_post_mono;
    [|apply io_post_result, (offer_filters_one_way G o Hone)].
  cbn beta. intros r out [[-> Hloc] ->]. fold (verdict G o).
  destruct (verdict G o) as [[locals|]|e] eqn:Ev.
  - rewrite decide_False by apply not_elem_of_empty.
    specialize (Hloc locals Ev).
    destruct locals as [[[to_itin from_itin] dep_seg] ret_seg].
    cbn in Hloc. subst ret_seg.
    apply io_post_bind.
    eapply io_post_mono; [|apply print_offer_no_return].
    cbn beta. intros r' out' [[e ->] ->]. eauto.
  - by apply io_post_ret.
  - eauto.
Qed.

(** In one-way mode the presenter prints nothing, and it raises as soon as
    an offer is not skipped by the filters. *)
Lemma display_offers_one_way (G : config) (offers : list offer) :
  one_way (ARGS G) = true →
  ∃ r, (∀ w, display_offers G offers w = (r, w))
    ∧ ((∃ o, o ∈ offers ∧ verdict G o ≠ Ok None) → ∃ e, r = Raise e).
Proof.
  intros Hone.
  assert (H : io_post (for_io offers (display_offer G) ∅)
                (λ r out, out = []
                   ∧ (r = Ok ∅ ∨ ∃ e, r = Raise e)
                   ∧ ((∃ o, o ∈ offers ∧ verdict G o ≠ Ok None) →
                      ∃ e, r = Raise e))).
  { induction offers as [|o offers IH].
    - apply io_post_ret. split; [done|]. split; [by left|].
      intros (o & Ho & _). by apply elem_of_nil in Ho.
    - cbn [for_io]. apply io_post_bind.
      eapply io_post_mono; [|apply (display_offer_one_way G o Hone)].
      cbn beta. intros r out [-> Hv].
      destruct (verdict G o) as [[locals|]|e] eqn:Ev.
      + destruct Hv as [e ->]. split; [done|]. split; eauto.
      + subst r. eapply io_post_mono; [|apply IH].
        cbn beta. intros r' out' (-> & Hr & Hex). split; [done|].
        split; [done|]. intros (o' & Ho' & Hne).
        apply elem_of_cons in Ho' as [->|Ho']; [done|]. apply Hex. eauto.
      + destruct Hv as [e' ->]. split; [done|]. split; eauto. }
  destruct H as (r & out & Hrun & -> & Hr & Hex).
  exists (r ≫= λ _, Ok tt). split.
  - intros [so ms n]. unfold display_offers, mbind at 1, io_bind.
    rewrite Hrun. cbn. rewrite app_nil_r. by destruct r.
  - intros Hsome. destruct (Hex Hsome) as [e ->]. by exists e.
Qed.

(** A one-way offer: a single itinerary. *)
Definition single_trip : offer :=
  {| price_total := "120.00";
     itineraries :=
       [ {| duration := "PT5H";
            segments :=
              [ {| departure := {| iataCode := "LHR"; at_ := "2025-06-01T10:00:00" |};
                   arrival := {| iataCode := "EVN"; at_ := "2025-06-01T18:00:00" |} |} ] |} ] |}.

Definition segments_of (o : offer) : list segment :=
  match itineraries o with
  | itin :: _ => segments itin
  | [] => []
  end.

Definition first_segment (o : offer) : segment :=
  match segments_of o with
  | seg :: _ => seg
  | [] => {| departure := {| iataCode := ""; at_ := "" |};
             arrival := {| iataCode := ""; at_ := "" |} |}
  end.

(** A provider that answers every request with that offer. *)
Definition always_single_trip (_ : nat) (_ : query) : response :=
  {| status_code := 200; data := [single_trip] |}.

(** C4, the failing input.  In one-way mode with no filter set, an offer
    made of one outbound itinerary passes every check of the presenter, is
    entered into the set of seen keys, and then the presenter raises
    [TypeError] where it reads the departure of the missing return segment:
    nothing is printed for the offer.  The same happens inside the driver,
    which stops at its first presentation call, after its progress line. *)
Theorem one_way_offer_raises :
  verdict (any_airport true) single_trip
  = Ok (Some ({| duration := "PT5H"; segments := segments_of single_trip |},
              {| duration := "PT5H"; segments := segments_of single_trip |},
              first_segment single_trip, None))
  ∧ display_offers (any_airport true) [single_trip] empty_world
    = (Raise TypeError, empty_world)
  ∧ run_search (Date 739000) (λ _, Raise ValueError) (Ok "token"%string)
      always_single_trip (any_airport true) empty_world
    = (Raise TypeError,
       World [PrChecking "LHR" "EVN" "2025-06-01" None] [] 1).
Proof. repeat split; vm_compute; reflexivity. Qed.

(** The same configuration with another return filter. *)
Definition with_return_filter (G : config) (m : filter_map) : config :=
  {| ARGS := ARGS G;
     DEPART_DAY_FILTER := DEPART_DAY_FILTER G;
     RETURN_DAY_FILTER := m |}.

Lemma io_bind_ext {A B} (m m' : io A) (k k' : A → io B) (w : world) :
  m w = m' w → (∀ a w', k a w' = k' a w') → (m ≫= k) w = (m' ≫= k') w.
Proof.
  intros Hm Hk. unfold mbind, io_bind. rewrite Hm.
  destruct (m' w) as [[a|e] w']; [apply Hk|done].
Qed.

Lemma for_io_ext {X S} (xs : list X) (body body' : X → S → io S) :
  (∀ x s w, body x s w = body' x s w) →
  ∀ s w, for_io xs body s w = for_io xs body' s w.
Proof.
  intros Hb. induction xs as [|x xs IH]; intros s w; [done|].
  cbn [for_io]. apply io_bind_ext; [apply Hb|apply IH].
Qed.

Lemma display_offers_ignores_return_filter (G : config) (m : filter_map)
    (offers : list offer) (w : world) :
  one_way (ARGS G) = true →
  display_offers (with_return_filter G m) offers w = display_offers G offers w.
Proof.
  intros Hone. unfold display_offers.
  apply io_bind_ext; [|done]. apply for_io_ext. clear w.
  intros o seen w. unfold display_offer.
  apply io_bind_ext; [|done].
  unfold offer_filters, depart_ok. cbn [ARGS DEPART_DAY_FILTER with_return_filter].
  rewrite Hone. reflexivity.
Qed.

(** In one-way mode the driver and the presenter behave the same whatever
    the return filter is: it is never consulted. *)
Lemma one_way_ignores_return_filter (today : date)
    (parse_range_length : string → res Z) (token : res string)
    (http_get : nat → query → response) (G : config) (m : filter_map)
    (w : world) :
  one_way (ARGS G) = true →
  run_search today parse_range_length token http_get (with_return_filter G m) w
  = run_search today parse_range_length token http_get G w.
Proof.
  intros Hone. unfold run_search. cbn [ARGS with_return_filter].
  apply io_bind_ext; [done|]. intros tok w1.
  apply io_bind_ext; [done|]. intros pairs w2.
  apply io_bind_ext.
  - apply for_io_ext. intros orig [] w3.
    apply for_io_ext. intros dest [] w4.
    apply for_io_ext. intros [d_date r_date] [] w5.
    unfold search_pair, depart_ok. cbn [ARGS DEPART_DAY_FILTER with_return_filter].
    rewrite Hone. cbn [negb].
    apply io_bind_ext; [done|]. intros d_ok w6.
    destruct (negb d_ok); [done|].
    apply io_bind_ext; [done|]. intros r_ok w7.
    destruct (negb r_ok); [done|].
    apply io_bind_ext; [done|]. intros _ w8.
    apply io_bind_ext; [done|]. intros offers w9.
    destruct offers as [[|o offers]|]; try done.
    apply io_bind_ext; [done|]. intros sorted_offers w10.
    apply io_bind_ext; [done|]. intros best w11.
    apply io_bind_ext; [|done].
    by apply display_offers_ignores_return_filter.
  - intros _ w3.
    apply io_bind_ext; [done|]. intros _ w4.
    apply io_bind_ext; [done|]. intros all w5.
    apply io_bind_ext; [done|]. intros ranked w6.
    by apply display_offers_ignores_return_filter.
Qed.


(** The filter of the examples above is what the command-line token
    [Mon(22:00-02:00)] is parsed to; a bare day has no bounds. *)
Example parse_day_time_filters_example :
  parse_day_time_filters ["Mon(22:00-02:00)"]
  = Ok (DEPART_DAY_FILTER monday_night)
  ∧ parse_day_time_filters ["Sat"]
    = Ok {[ "sat"%string := (None, None) ]}
  ∧ parse_day_time_filters ["Mon(22:00)"]
    = Raise (SystemExit "Bad time range in 'Mon(22:00)'. Expected HH:MM-HH:MM.").
Proof. repeat split; vm_compute; reflexivity. Qed.

(** * Further properties of the program *)

(** ** [iso_duration_to_hm]: when it raises, and the sign of its results *)

Lemma digit_val_nonneg (c : ascii) : is_digit c = true → 0 <= digit_val c <= 9.
Proof.
  unfold is_digit, digit_val. intros H.
  apply andb_true_iff in H as [H1 H2]. lia.
Qed.







(** ** [expand_stay_durations]: its results are not negative, its only
    failure is the exit *)

Lemma contains_lstrip (c : ascii) (s : string) :
  contains c s = false → contains c (lstrip s) = false.
Proof.
  induction s as [|x s IH]; [done|]. cbn [lstrip contains]. intros H.
  destruct (is_space x); [|done].
  apply orb_false_iff in H as [_ H]. by apply IH.
Qed.

Lemma contains_rstrip (c : ascii) (s : string) :
  contains c s = false → contains c (rstrip s) = false.
Proof.
  induction s as [|x s IH]; [done|]. cbn [rstrip contains]. intros H.
  apply orb_false_iff in H as [Hx H].
  destruct (is_space x && is_empty (rstrip s)); [done|].
  cbn [contains]. by rewrite Hx, IH.
Qed.

Lemma int_digits_nonneg (s : string) : ∀ acc b n,
  int_digits acc b s = Some n → 0 <= acc → 0 <= n.
Proof.
  induction s as [|c s IH]; intros acc b n H Hacc; cbn [int_digits] in H.
  - destruct b; [|done]. injection H as <-. done.
  - destruct (is_digit c) eqn:Hc.
    + eapply IH; [exact H|]. pose proof (digit_val_nonneg c Hc). lia.
    + destruct (Ascii.eqb c "_"); [|done]. destruct b; [|done]. by eapply IH.
Qed.

Lemma int_of_str_errors (s : string) (e : exn) :
  int_of_str s = Raise e → e = ValueError.
Proof.
  unfold int_of_str.
  destruct (match strip s with
            | String "-" r => (true, r)
            | String "+" r => (false, r)
            | _ => (false, strip s)
            end) as [neg ds].
  destruct (int_digits 0 false ds); [done|]. by intros [= <-].
Qed.

Lemma int_of_str_nonneg (s : string) (n : Z) :
  contains "-" s = false → int_of_str s = Ok n → 0 <= n.
Proof.
  intros Hs. unfold int_of_str, strip.
  assert (Hb : contains "-" (rstrip (lstrip s)) = false)
    by (by apply contains_rstrip, contains_lstrip).
  destruct (rstrip (lstrip s)) as [|c r] eqn:Eb.
  - cbn. discriminate.
  - cbn [contains] in Hb. apply orb_false_iff in Hb as [Hc Hr].
    assert (Hsign :
      match String c r with
      | String "-" r' => (true, r')
      | String "+" r' => (false, r')
      | _ => (false, String c r)
      end = (false, if Ascii.eqb c "+" then r else String c r)).
    { destruct c as [[] [] [] [] [] [] [] []]; try reflexivity; discriminate. }
    rewrite Hsign.
    destruct (int_digits 0 false (if Ascii.eqb c "+" then r else String c r))
      as [v|] eqn:Ev; [|discriminate].
    intros [= <-]. by eapply int_digits_nonneg.
Qed.

Lemma split_parts_no_sep (c : ascii) (s : string) :
  Forall (λ p, contains c p = false) (split c s).
Proof.
  induction s as [|x s IH]; [by repeat constructor|]. cbn [split].
  destruct (Ascii.eqb x c) eqn:Ex; [by constructor|].
  destruct (split c s) as [|h t]; [by repeat constructor; cbn; rewrite Ex|].
  apply Forall_cons in IH as [Hh Ht]. constructor; [|done].
  cbn [contains]. by rewrite Ex, Hh.
Qed.

Lemma unpack2_int_errors (parts : list string) (e : exn) :
  unpack2_int parts = Raise e → e = ValueError.
Proof.
  unfold unpack2_int. destruct parts as [|a [|b more]].
  - by intros [= <-].
  - destruct (int_of_str a) eqn:E; cbn; [by intros [= <-]|].
    intros [= <-]. by eapply int_of_str_errors.
  - destruct (int_of_str a) eqn:Ea; cbn;
      [|intros [= <-]; by eapply int_of_str_errors].
    destruct (int_of_str b) eqn:Eb; cbn;
      [|intros [= <-]; by eapply int_of_str_errors].
    destruct more as [|c more']; [done|].
    destruct (int_of_str c) eqn:Ec; cbn; [by intros [= <-]|].
    intros [= <-]. by eapply int_of_str_errors.
Qed.

Lemma unpack2_int_nonneg (parts : list string) (x y : Z) :
  Forall (λ p, contains "-" p = false) parts →
  unpack2_int parts = Ok (x, y) → 0 <= x ∧ 0 <= y.
Proof.
  unfold unpack2_int. intros Hp H. destruct parts as [|a [|b more]]; [done| |].
  - by destruct (int_of_str a).
  - apply bind_is_Ok in H as (x' & Ha & H).
    apply bind_is_Ok in H as (y' & Hb & H).
    apply Forall_cons in Hp as [Hpa Hp]. apply Forall_cons in Hp as [Hpb _].
    destruct more as [|c more'].
    + injection H as <- <-.
      split; [exact (int_of_str_nonneg a x' Hpa Ha)
             |exact (int_of_str_nonneg b y' Hpb Hb)].
    + by destruct (int_of_str c).
Qed.

Lemma token_nights_nonneg (tok : string) (T : gset Z) :
  token_nights tok = Ok T → ∀ n, n ∈ T → 0 <= n.
Proof.
  unfold token_nights, expand_token. destruct (contains "-" tok) eqn:Ec.
  - destruct (unpack2_int (split "-" tok)) as [[x y]|e] eqn:Eu;
      [|by destruct e].
    cbn. intros [= <-] n Hn.
    apply unpack2_int_nonneg in Eu as [Hx _]; [|apply split_parts_no_sep].
    rewrite elem_of_union, elem_of_list_to_set in Hn.
    destruct Hn as [Hn|Hn]; [by apply not_elem_of_empty in Hn|].
    unfold range2 in Hn. apply elem_of_seqZ in Hn. lia.
  - destruct (int_of_str tok) as [v|e] eqn:Ei; [|by destruct e].
    cbn. intros [= <-] n Hn.
    rewrite elem_of_union, elem_of_singleton in Hn.
    destruct Hn as [Hn| ->]; [by apply not_elem_of_empty in Hn|].
    exact (int_of_str_nonneg tok v Ec Ei).
Qed.

Lemma expand_token_errors (tok : string) (S : gset Z) (e : exn) :
  expand_token tok S = Raise e →
  e = SystemExit ("Invalid range format in --max-stay: " +:+ tok)
  ∨ e = SystemExit ("Invalid number in --max-stay: " +:+ tok).
Proof.
  unfold expand_token. destruct (contains "-" tok).
  - destruct (unpack2_int (split "-" tok)) as [[x y]|e'] eqn:Eu; [done|].
    apply unpack2_int_errors in Eu as ->. cbn. intros [= <-]. by left.
  - destruct (int_of_str tok) as [v|e'] eqn:Ei; [done|].
    apply int_of_str_errors in Ei as ->. cbn. intros [= <-]. by right.
Qed.

(** Whatever the tokens, [expand_stay_durations] either returns numbers of
    nights none of which is negative, or ends the program with a message
    that names one of the tokens; no other exception leaves it. *)
Theorem expand_stay_durations_outcomes :
  ∀ toks : list string,
    (∃ l, expand_stay_durations toks = Ok l ∧ Forall (λ n, 0 <= n) l)
    ∨ (∃ tok, tok ∈ toks
         ∧ (expand_stay_durations toks
            = Raise (SystemExit ("Invalid range format in --max-stay: " +:+ tok))
            ∨ expand_stay_durations toks
              = Raise (SystemExit ("Invalid number in --max-stay: " +:+ tok)))).
Proof.
  intros toks.
  destruct (expand_stay_durations toks) as [l|e] eqn:E.
  - left. exists l. split; [done|]. apply Forall_forall. intros n Hn.
    destruct (expand_stay_durations_spec toks l E) as [_ Hmem].
    apply Hmem in Hn as (tok & T & _ & HT & Hn).
    by eapply token_nights_nonneg.
  - right. unfold expand_stay_durations in E.
    assert (H : ∀ S, for_ toks expand_token S = Raise e →
                ∃ tok, tok ∈ toks
                  ∧ (e = SystemExit ("Invalid range format in --max-stay: " +:+ tok)
                     ∨ e = SystemExit ("Invalid number in --max-stay: " +:+ tok))).
    { clear E. induction toks as [|tok toks IH]; intros S H; [done|].
      cbn [for_] in H. destruct (expand_token tok S) as [S'|e'] eqn:Et.
      - rewrite bind_Ok in H. destruct (IH S' H) as (tok' & Hin & Hm).
        exists tok'. split; [by right|done].
      - cbn in H. injection H as ->. exists tok. split; [by left|].
        by eapply expand_token_errors. }
    destruct (for_ toks expand_token ∅) as [S|e'] eqn:Ef.
    + rewrite bind_Ok in E.
      destruct (sorted_ints (elements S) (NoDup_elements S)) as (l & Hl & _).
      rewrite Hl in E. discriminate.
    + cbn in E. injection E as ->.
      destruct (H ∅ Ef) as (tok & Hin & [-> | ->]); exists tok; auto.
Qed.

(** ** [make_date_pairs]: which mode is taken, how many pairs, what the
    pairs are *)

Definition exit_no_dates : exn :=
  SystemExit "Provide either fixed dates or a flexible range.".

(** Without stay lengths, be it that [--max-stay] is absent or that it
    expands to nothing, neither [--range-length] nor the departure window
    is looked at: the result is the pair of [--depart] and [--return] as
    they were typed, unread, or the exit when one of the two is missing. *)
Theorem make_date_pairs_without_stays :
  ∀ (today : date) (parse_range_length : string → res Z) (A : Args),
    stay_lengths A = Ok [] →
    make_date_pairs today parse_range_length A
    = if truthy (depart A) && truthy (ret A)
      then Ok [(text (depart A), text (ret A))]
      else Raise exit_no_dates.
Proof.
  intros today prl A H. unfold make_date_pairs. fold (stay_lengths A).
  rewrite H, bind_Ok. cbn [is_nil negb]. by rewrite !andb_false_r.
Qed.

(** A departure window with [--max-stay 7-3]: the stay range is empty, and
    the program exits asking for dates. *)
Definition backward_stay : Args :=
  {| origins := ["LHR"]; destinations := ["EVN"]; depart := None; ret := None;
     depart_start := Some "2025-06-01"; depart_end := Some "2025-06-02";
     return_start := None; return_end := None;
     max_stay := Some ["7-3"]; range_length := None; range_start := None;
     filter_depart_days_time := None; filter_return_days_time := None;
     max_departure_stopover := None; max_return_stopover := None;
     nonstop := false; max_stops := 1; max_results := 5;
     one_way := false; allow_different_return_airport := false;
     sort_by := ["price"; "departure_date"; "duration"; "return_date"] |}.

Lemma make_date_pairs_without_stays_witness :
  make_date_pairs (Date 739000) (λ _, Ok 7) backward_stay = Raise exit_no_dates.
Proof.
  apply (make_date_pairs_without_stays (Date 739000) (λ _, Ok 7) backward_stay).
  vm_compute. reflexivity.
Defined.

(** The same options with other values for the fixed dates, the departure
    window and the return window. *)
Definition with_other_dates (A : Args) (d r ds de rs re : option string) : Args :=
  {| origins := origins A; destinations := destinations A;
     depart := d; ret := r; depart_start := ds; depart_end := de;
     return_start := rs; return_end := re;
     max_stay := max_stay A; range_length := range_length A;
     range_start := range_start A;
     filter_depart_days_time := filter_depart_days_time A;
     filter_return_days_time := filter_return_days_time A;
     max_departure_stopover := max_departure_stopover A;
     max_return_stopover := max_return_stopover A;
     nonstop := nonstop A; max_stops := max_stops A;
     max_results := max_results A; one_way := one_way A;
     allow_different_return_airport := allow_different_return_airport A;
     sort_by := sort_by A |}.

(** The rolling window comes first: when [--range-length] is given and
    there are stay lengths, the fixed dates, the departure window and the
    return window have no effect on the pairs; in particular no pair is
    dropped for its return date. *)
Theorem rolling_window_ignores_other_dates :
  ∀ (today : date) (parse_range_length : string → res Z) (A : Args)
    (stays : list Z) (d r ds de rs re : option string),
    truthy (range_length A) = true →
    stay_lengths A = Ok stays → stays ≠ [] →
    make_date_pairs today parse_range_length (with_other_dates A d r ds de rs re)
    = make_date_pairs today parse_range_length A.
Proof.
  intros today prl A stays d r ds de rs re Hlen Hstays Hne.
  unfold make_date_pairs.
  cbn [max_stay range_length range_start with_other_dates].
  fold (stay_lengths A). rewrite Hstays, !bind_Ok, Hlen.
  destruct stays; [done|]. reflexivity.
Qed.

Lemma rolling_window_ignores_other_dates_witness :
  make_date_pairs (Date 739000) (λ _, Ok 2)
    (with_other_dates rolling_example None None None None
       (Some "2025-06-05") (Some "2025-06-05"))
  = make_date_pairs (Date 739000) (λ _, Ok 2) rolling_example.
Proof.
  apply (rolling_window_ignores_other_dates (Date 739000) (λ _, Ok 2)
           rolling_example [3; 5]).
  - reflexivity.
  - vm_compute. reflexivity.
  - discriminate.
Defined.



(** ** From the date pairs to the pre-check of [run_search] *)

Definition noon : time := Time 12 0 0.

Lemma fromisoformat_noon (d : date) :
  valid_date d →
  fromisoformat (date_isoformat d +:+ "T12:00:00") = Ok (DateTime d noon).
Proof.
  intros Hd.
  apply (fromisoformat_isoformat (DateTime d noon)).
  split; [done|]. unfold valid_time, noon. simpl. lia.
Qed.

Lemma elem_of_concat_map {X Y} (f : X → list Y) (xs : list X) (y : Y) :
  y ∈ concat (map f xs) ↔ ∃ x, x ∈ xs ∧ y ∈ f x.
Proof.
  induction xs as [|x xs IH]; cbn [map concat].
  - split; [by intros ?%elem_of_nil|by intros (? & ?%elem_of_nil & _)].
  - rewrite elem_of_app, IH. split.
    + intros [H|(x' & H & H')]; [exists x|exists x'];
        (split; [|done]); [by left|by right].
    + intros (x' & [->|H]%elem_of_cons & H'); [by left|right; by exists x'].
Qed.

Lemma elem_of_pair_grid (keep : Z → bool) (days stays : list Z)
    (p : string * string) :
  p ∈ pair_grid keep days stays
  ↔ ∃ d stay, d ∈ days ∧ stay ∈ stays ∧ keep (d + stay) = true
      ∧ p = date_pair d stay.
Proof.
  unfold pair_grid. rewrite elem_of_concat_map. split.
  - intros (d & Hd & Hp). apply elem_of_concat_map in Hp as (stay & Hs & Hp).
    destruct (keep (d + stay)) eqn:E.
    + apply list_elem_of_singleton in Hp. by exists d, stay.
    + by apply elem_of_nil in Hp.
  - intros (d & stay & Hd & Hs & Hk & ->).
    exists d. split; [done|]. apply elem_of_concat_map. exists stay.
    split; [done|]. rewrite Hk. by apply list_elem_of_singleton.
Qed.

(** What [run_search] reads of a date pair. *)
Definition reads_as (p : string * string) (d r : Z) : Prop :=
  fromisoformat (p.1 +:+ "T12:00:00") = Ok (DateTime (Date d) noon)
  ∧ fromisoformat (p.2 +:+ "T12:00:00") = Ok (DateTime (Date r) noon).

(** In a range specification every pair that [make_date_pairs] returns is
    read back by [run_search], which appends [T12:00:00] to either text, as
    noon of a day of the departure window and noon of the day a stay length
    later, a day within the return window. *)
Theorem range_pairs_read_at_noon :
  ∀ (today : date) (parse_range_length : string → res Z) (A : Args)
    (stays : list Z) (start end_ : datetime) (lo hi : option date),
    truthy (range_length A) = false →
    truthy (depart_start A) = true → truthy (depart_end A) = true →
    stay_lengths A = Ok stays → stays ≠ [] →
    fromisoformat (text (depart_start A)) = Ok start →
    fromisoformat (text (depart_end A)) = Ok end_ →
    return_bound (return_start A) = Ok lo →
    return_bound (return_end A) = Ok hi →
    toordinal (dt_date end_) < MAXORDINAL →
    (∀ d stay,
       toordinal (dt_date start) <= d <= toordinal (dt_date end_) →
       stay ∈ stays → 1 <= d + stay <= MAXORDINAL) →
    ∃ pairs, make_date_pairs today parse_range_length A = Ok pairs
      ∧ ∀ p, p ∈ pairs →
          ∃ d stay,
            toordinal (dt_date start) <= d <= toordinal (dt_date end_)
            ∧ stay ∈ stays
            ∧ in_return_window lo hi (d + stay) = true
            ∧ reads_as p d (d + stay).
Proof.
  intros today prl A stays start end_ lo hi Hlen Hds Hde Hstays Hne
    Hstart Hend Hlo Hhi Hmax Hrep.
  destruct (fromisoformat_valid _ _ Hstart) as [[Hs1 _] _].
  exists (pair_grid (in_return_window lo hi)
            (seqZ (toordinal (dt_date start))
               (Z.of_nat (Z.to_nat (Z.max 0 (toordinal (dt_date end_)
                                              - toordinal (dt_date start) + 1)))))
            stays).
  split.
  - unfold make_date_pairs. fold (stay_lengths A). rewrite Hstays, bind_Ok.
    rewrite Hlen, Hds, Hde. destruct stays as [|s0 stays']; [done|].
    cbn [is_nil negb andb]. rewrite Hstart, bind_Ok, Hend, bind_Ok.
    destruct start as [[s] ts], end_ as [[e] te]. cbn [dt_date toordinal] in *.
    rewrite (depart_loop_pairs A (s0 :: stays') lo hi e Hlo Hhi Hmax
               (Z.to_nat (Z.max 0 (e - s + 1))) s); try lia; try done.
  - intros p Hp.
    apply elem_of_pair_grid in Hp as (d & stay & Hd & Hs & Hk & ->).
    apply elem_of_seqZ in Hd. exists d, stay.
    assert (toordinal (dt_date start) <= d <= toordinal (dt_date end_)) by lia.
    repeat split; try done; try lia.
    + apply (fromisoformat_noon (Date d)). unfold valid_date, MAXORDINAL in *.
      cbn [toordinal]. lia.
    + apply (fromisoformat_noon (Date (d + stay))). unfold valid_date.
      cbn [toordinal]. by apply Hrep.
Qed.

Lemma range_pairs_read_at_noon_witness :
  ∃ pairs,
    make_date_pairs (Date 739000) (λ _, Raise ValueError) range_example = Ok pairs
    ∧ ∀ p, p ∈ pairs →
        ∃ d stay, 739403 <= d <= 739404 ∧ stay ∈ [3; 5]
          ∧ in_return_window None None (d + stay) = true
          ∧ reads_as p d (d + stay).
Proof.
  apply (range_pairs_read_at_noon (Date 739000) (λ _, Raise ValueError)
           range_example [3; 5]
           (DateTime (Date 739403) (Time 0 0 0))
           (DateTime (Date 739404) (Time 0 0 0)) None None).
  - reflexivity.
  - reflexivity.
  - reflexivity.
  - vm_compute. reflexivity.
  - discriminate.
  - vm_compute. reflexivity.
  - vm_compute. reflexivity.
  - reflexivity.
  - reflexivity.
  - unfold MAXORDINAL. simpl. lia.
  - intros d stay Hd Hs. unfold MAXORDINAL. cbn [toordinal dt_date] in Hd.
    rewrite !elem_of_cons, elem_of_nil in Hs. lia.
Defined.

(** ** The dates of a query *)

(** The parameters [call_amadeus] sends. *)
Definition amadeus_query (A : Args) (origin destination depart_ ret_ : string)
  : query :=
  {| originLocationCode := origin;
     destinationLocationCode := destination;
     departureDate := depart_;
     returnDate := if is_empty ret_ then None else Some ret_;
     adults := 1;
     max := max_results A;
     currencyCode := "GBP";
     nonStop := if nonstop A then "true" else "false" |}.

Lemma is_empty_append (a : string) c (b : string) :
  is_empty (a +:+ String c b) = false.
Proof. by destruct a. Qed.

Lemma date_isoformat_nonempty (d : date) : is_empty (date_isoformat d) = false.
Proof.
  unfold date_isoformat. destruct (ord2ymd (toordinal d)) as [[y m] dd].
  apply is_empty_append.
Qed.

Lemma for_invariant {X Y} (I : Y → Prop) (xs : list X) (body : X → Y → res Y) :
  (∀ x acc acc', body x acc = Ok acc' → I acc → I acc') →
  ∀ acc r, for_ xs body acc = Ok r → I acc → I r.
Proof.
  intros Hbody. induction xs as [|x xs IH]; intros acc r; cbn [for_].
  - by intros [= <-].
  - destruct (body x acc) as [acc'|e] eqn:E; [|discriminate].
    rewrite bind_Ok. intros Hr Hacc. eapply IH; [done|]. by eapply Hbody.
Qed.

(** Every pair has a return date. *)
Definition with_return (pairs : list (string * string)) : Prop :=
  Forall (λ p, is_empty p.2 = false) pairs.

Lemma with_return_snoc pairs (a : string) (d : date) :
  with_return pairs → with_return (pairs ++ [(a, date_isoformat d)]).
Proof.
  intros H. apply Forall_app. split; [done|].
  apply Forall_singleton. apply date_isoformat_nonempty.
Qed.

Lemma depart_loop_with_return (A : Args) (stays : list Z) (end_ : date) :
  ∀ (fuel : nat) (start : date) (pairs r : list (string * string)),
    depart_loop A stays fuel start end_ pairs = Ok r →
    with_return pairs → with_return r.
Proof.
  induction fuel as [|fuel IH]; intros start pairs r; [discriminate|].
  rewrite depart_loop_step. destruct (date_leb start end_); [|by intros [= <-]].
  match goal with |- context [for_ stays ?b pairs] =>
    destruct (for_ stays b pairs) as [pairs'|e] eqn:E; [|discriminate] end.
  rewrite bind_Ok.
  destruct (date_add_days start 1) as [start'|e]; [|discriminate].
  rewrite bind_Ok. intros Hr Hp. apply (IH _ _ _ Hr).
  revert E Hp. apply for_invariant. clear. intros stay acc acc'.
  destruct (date_add_days start stay) as [ret_d|]; [|discriminate].
  rewrite bind_Ok.
  match goal with |- context [?m ≫= _] =>
    destruct m as [[|]|]; try discriminate end;
    rewrite bind_Ok; try by intros [= <-].
  match goal with |- context [?m ≫= _] =>
    destruct m as [[|]|]; try discriminate end;
    rewrite bind_Ok; try by intros [= <-].
  intros [= <-]. apply with_return_snoc.
Qed.

(** Whatever the mode, every pair that [make_date_pairs] returns has a
    return date, and [call_amadeus] puts a non-empty return date into the
    query: every query carries [returnDate], with [--one-way] too, which
    neither function looks at. *)
Theorem every_query_has_return_date :
  ∀ (today : date) (parse_range_length : string → res Z) (A : Args)
    (pairs : list (string * string)),
    make_date_pairs today parse_range_length A = Ok pairs →
    ∀ (p : string * string) (orig dest : string),
      p ∈ pairs →
      returnDate (amadeus_query A orig dest p.1 p.2) = Some p.2.
Proof.
  intros today prl A pairs Hmk p orig dest Hp.
  assert (with_return pairs) as Hall.
  { revert Hmk. unfold make_date_pairs.
    match goal with |- context [?m ≫= _] =>
      destruct m as [stays|]; [|discriminate] end.
    rewrite bind_Ok.
    destruct (truthy (range_length A) && negb (is_nil stays)).
    - match goal with |- context [?m ≫= _] =>
        destruct m as [base|]; [|discriminate] end.
      rewrite bind_Ok.
      destruct (prl (text (range_length A))) as [total_days|]; [|discriminate].
      rewrite bind_Ok. intros H.
      assert (with_return []) as H0 by apply Forall_nil_2. revert H H0.
      apply for_invariant. intros offset acc acc'.
      destruct (date_add_days base offset) as [d_date|]; [|discriminate].
      rewrite bind_Ok. apply for_invariant. intros stay acc1 acc1'.
      destruct (date_add_days d_date stay) as [r_date|]; [|discriminate].
      rewrite bind_Ok. intros [= <-]. apply with_return_snoc.
    - destruct (truthy (depart_start A) && truthy (depart_end A)
                && negb (is_nil stays)).
      + destruct (fromisoformat (text (depart_start A))) as [s|]; [|discriminate].
        rewrite bind_Ok.
        destruct (fromisoformat (text (depart_end A))) as [e|]; [|discriminate].
        rewrite bind_Ok. cbv zeta. intros H.
        apply (depart_loop_with_return _ _ _ _ _ _ _ H). apply Forall_nil_2.
      + destruct (truthy (depart A) && truthy (ret A)) eqn:E; [|discriminate].
        intros [= <-]. apply Forall_singleton. cbn [snd].
        apply andb_true_iff in E as [_ E].
        by destruct (ret A) as [[|c s]|]. }
  unfold with_return in Hall. rewrite Forall_forall in Hall.
  cbn [returnDate amadeus_query]. by rewrite (Hall p Hp).
Qed.

(** A one-way search over a rolling window. *)
Definition rolling_one_way : Args :=
  {| origins := ["LHR"]; destinations := ["EVN"]; depart := None; ret := None;
     depart_start := None; depart_end := None;
     return_start := None; return_end := None;
     max_stay := Some ["3"]; range_length := Some "1 day";
     range_start := Some "2025-06-01";
     filter_depart_days_time := None; filter_return_days_time := None;
     max_departure_stopover := None; max_return_stopover := None;
     nonstop := false; max_stops := 1; max_results := 5;
     one_way := true; allow_different_return_airport := false;
     sort_by := ["price"; "departure_date"; "duration"; "return_date"] |}.

Lemma every_query_has_return_date_witness :
  returnDate (amadeus_query rolling_one_way "LHR" "EVN" "2025-06-01" "2025-06-04")
  = Some "2025-06-04"%string.
Proof.
  apply (every_query_has_return_date (Date 739000) (λ _, Ok 1) rolling_one_way
           [("2025-06-01", "2025-06-04")]%string
           (eq_refl : make_date_pairs (Date 739000) (λ _, Ok 1) rolling_one_way
                      = Ok [("2025-06-01", "2025-06-04")]%string)
           ("2025-06-01", "2025-06-04")%string "LHR" "EVN").
  by apply list_elem_of_singleton.
Defined.

(** ** [call_amadeus]: the retries *)

(** The answer to the request sent after [k] others, counted from the
    world [w]; whether an answer is a rate limit. *)
Definition answer (http_get : nat → query → response) (w : world) (q : query)
    (k : nat) : response :=
  http_get (requests w + k)%nat q.

Definition rate_limited (rsp : response) : bool := status_code rsp =? 429.

Lemma attempts_step (http_get : nat → query → response) (n : nat) (q : query)
    (w : world) :
  attempts http_get (S n) q w
  = if rate_limited (answer http_get w q 0) then
      attempts http_get n q
        (World (stdout w ++ [PrRateLimit]) (ALL_MATCHES w) (S (requests w)))
    else (Ok (Some (answer http_get w q 0)),
          World (stdout w) (ALL_MATCHES w) (S (requests w))).
Proof.
  unfold answer, rate_limited. rewrite Nat.add_0_r.
  cbn [attempts]. unfold mbind at 1, io_bind, requests_get.
  destruct (status_code (http_get (requests w) q) =? 429); reflexivity.
Qed.

Lemma attempts_give_up (http_get : nat → query → response) (q : query) :
  ∀ (n : nat) (w : world),
    (∀ k, (k < n)%nat → rate_limited (answer http_get w q k) = true) →
    attempts http_get n q w
    = (Ok None,
       World (stdout w ++ replicate n PrRateLimit ++ [PrRateLimitGiveUp])
         (ALL_MATCHES w) (requests w + n)).
Proof.
  induction n as [|n IH]; intros w Hall.
  - cbn. by rewrite Nat.add_0_r.
  - rewrite attempts_step, (Hall 0%nat) by lia. rewrite IH.
    + cbn [stdout ALL_MATCHES requests replicate]. rewrite <- app_assoc.
      cbn [app]. by rewrite Nat.add_succ_r.
    + intros k Hk. unfold answer. cbn [requests].
      rewrite Nat.add_succ_l, <- Nat.add_succ_r. apply (Hall (S k)). lia.
Qed.

Lemma attempts_answer (http_get : nat → query → response) (q : query) :
  ∀ (n k : nat) (w : world),
    (k < n)%nat →
    (∀ j, (j < k)%nat → rate_limited (answer http_get w q j) = true) →
    rate_limited (answer http_get w q k) = false →
    attempts http_get n q w
    = (Ok (Some (answer http_get w q k)),
       World (stdout w ++ replicate k PrRateLimit) (ALL_MATCHES w)
         (requests w + S k)).
Proof.
  induction n as [|n IH]; intros k w Hk Hbefore Hat; [lia|].
  rewrite attempts_step. destruct k as [|k].
  - rewrite Hat. cbn [replicate]. by rewrite app_nil_r, Nat.add_1_r.
  - rewrite (Hbefore 0%nat) by lia. rewrite (IH k).
    + unfold answer. cbn [stdout ALL_MATCHES requests replicate].
      rewrite <- app_assoc. cbn [app].
      by rewrite !Nat.add_succ_r, !Nat.add_succ_l.
    + lia.
    + intros j Hj. unfold answer. cbn [requests].
      rewrite Nat.add_succ_l, <- Nat.add_succ_r. apply (Hbefore (S j)). lia.
    + unfold answer in *. cbn [requests].
      by rewrite Nat.add_succ_l, <- Nat.add_succ_r.
Qed.

(** What [call_amadeus] makes of the answer it stops at. *)
Definition offers_of (A : Args) (rsp : response) : res (option (list offer)) :=
  if status_code rsp =? 200 then
    match sort_offers (data rsp) (sort_by A) with
    | Ok offers => Ok (Some offers)
    | Raise e => Raise e
    end
  else Ok (Some []).

Lemma call_amadeus_give_up (http_get : nat → query → response) (A : Args)
    (token origin destination depart_ ret_ : string) (w : world) :
  (∀ k, (k < 3)%nat →
     rate_limited (answer http_get w
                     (amadeus_query A origin destination depart_ ret_) k) = true) →
  call_amadeus http_get A token origin destination depart_ ret_ w
  = (Ok None,
     World (stdout w ++ [PrRateLimit; PrRateLimit; PrRateLimit; PrRateLimitGiveUp])
       (ALL_MATCHES w) (requests w + 3)).
Proof.
  intros Hall. unfold call_amadeus. fold (amadeus_query A origin destination depart_ ret_).
  cbv zeta. unfold mbind at 1, io_bind.
  by rewrite (attempts_give_up http_get _ 3 w Hall).
Qed.

Lemma call_amadeus_answer (http_get : nat → query → response) (A : Args)
    (token origin destination depart_ ret_ : string) (w : world) (k : nat) :
  let q := amadeus_query A origin destination depart_ ret_ in
  (k < 3)%nat →
  (∀ j, (j < k)%nat → rate_limited (answer http_get w q j) = true) →
  rate_limited (answer http_get w q k) = false →
  call_amadeus http_get A token origin destination depart_ ret_ w
  = (offers_of A (answer http_get w q k),
     World (stdout w ++ replicate k PrRateLimit
            ++ (if status_code (answer http_get w q k) =? 200
                then [] else [PrAmadeusError]))
       (ALL_MATCHES w) (requests w + S k)).
Proof.
  intros q Hk Hbefore Hat. unfold call_amadeus.
  fold (amadeus_query A origin destination depart_ ret_). fold q.
  cbv zeta. unfold mbind at 1, io_bind.
  rewrite (attempts_answer http_get q 3 k w Hk Hbefore Hat).
  unfold offers_of.
  destruct (status_code (answer http_get w q k) =? 200); cbn [negb].
  - unfold mbind, io_bind, lift.
    destruct (sort_offers (data (answer http_get w q k)) (sort_by A));
      cbn; by rewrite app_nil_r.
  - unfold mbind, io_bind, print. cbn. by rewrite <- app_assoc.
Qed.

(** What a computation leaves of the world it starts in: it sends between
    [lo] and [hi] requests, keeps the collected matches and adds to the
    output. *)
Definition sends {X} (lo hi : nat) (m : io X) (w : world) : Prop :=
  (requests w + lo <= requests (m w).2 <= requests w + hi)%nat
  ∧ ALL_MATCHES (m w).2 = ALL_MATCHES w
  ∧ ∃ out, stdout (m w).2 = stdout w ++ out.

Lemma call_amadeus_sends (http_get : nat → query → response) (A : Args)
    (token origin destination depart_ ret_ : string) (w : world) :
  sends 1 3 (call_amadeus http_get A token origin destination depart_ ret_) w.
Proof.
  set (q := amadeus_query A origin destination depart_ ret_).
  unfold sends.
  destruct (rate_limited (answer http_get w q 0)) eqn:E0;
    [destruct (rate_limited (answer http_get w q 1)) eqn:E1;
      [destruct (rate_limited (answer http_get w q 2)) eqn:E2|]|].
  - rewrite call_amadeus_give_up.
    + cbn. split; [lia|]. split; [done|]. eauto.
    + intros [|[|[|k]]] Hk; done || lia.
  - rewrite (call_amadeus_answer _ _ _ _ _ _ _ _ 2%nat).
    + cbn. split; [lia|]. split; [done|]. eauto.
    + lia.
    + intros [|[|j]] Hj; done || lia.
    + done.
  - rewrite (call_amadeus_answer _ _ _ _ _ _ _ _ 1%nat).
    + cbn. split; [lia|]. split; [done|]. eauto.
    + lia.
    + intros [|j] Hj; done || lia.
    + done.
  - rewrite (call_amadeus_answer _ _ _ _ _ _ _ _ 0%nat).
    + cbn. split; [lia|]. split; [done|]. eauto.
    + lia.
    + intros j Hj; lia.
    + done.
Qed.

(** [call_amadeus] sends its query up to three times and stops at the first
    answer that is not a rate limit (status 429), having printed one
    warning per rate limit: that answer decides the result, the sorted
    offers for status 200 and no offers, after the error line, for any
    other status.  After three rate limits it prints that it gives up and
    returns [None].  One to three requests are sent, and the collected
    matches are left alone. *)
Theorem call_amadeus_retries :
  ∀ (http_get : nat → query → response) (A : Args)
    (token origin destination depart_ ret_ : string) (w : world),
    let q := amadeus_query A origin destination depart_ ret_ in
    let run := call_amadeus http_get A token origin destination depart_ ret_ w in
    ((∀ k, (k < 3)%nat → rate_limited (answer http_get w q k) = true) →
     run = (Ok None,
            World (stdout w ++ [PrRateLimit; PrRateLimit; PrRateLimit;
                                PrRateLimitGiveUp])
              (ALL_MATCHES w) (requests w + 3)))
    ∧ (∀ k, (k < 3)%nat →
         (∀ j, (j < k)%nat → rate_limited (answer http_get w q j) = true) →
         rate_limited (answer http_get w q k) = false →
         run = (offers_of A (answer http_get w q k),
                World (stdout w ++ replicate k PrRateLimit
                       ++ (if status_code (answer http_get w q k) =? 200
                           then [] else [PrAmadeusError]))
                  (ALL_MATCHES w) (requests w + S k)))
    ∧ (requests w < requests run.2 <= requests w + 3)%nat
    ∧ ALL_MATCHES run.2 = ALL_MATCHES w.
Proof.
  intros http_get A token origin destination depart_ ret_ w q run.
  split; [apply call_amadeus_give_up|].
  split; [intros k; apply call_amadeus_answer|].
  destruct (call_amadeus_sends http_get A token origin destination depart_ ret_ w)
    as (Hreq & Hm & _).
  fold run in Hreq, Hm. split; [lia|done].
Qed.

(** One rate limit, then an answer with status 200 and no offers. *)
Example call_amadeus_second_answer :
  call_amadeus (λ n _, if (n =? 0)%nat then {| status_code := 429; data := [] |}
                       else {| status_code := 200; data := [] |})
    rolling_example "token" "LHR" "EVN" "2025-06-01" "2025-06-04" empty_world
  = (Ok (Some []), World [PrRateLimit] [] 2).
Proof. vm_compute. reflexivity. Qed.

(** ** [run_search]: the pre-check of a date pair *)

(** What a day filter says of noon of the day [d]. *)
Definition noon_verdict (m : filter_map) (d : Z) : bool :=
  if decide (m = ∅) then true
  else match m !! weekday_abbr (Date d) with
       | None => false
       | Some (a, b) => time_in_window noon a b
       end.

(** The pre-check of [run_search] for a pair that reads as the days [d]
    and [r]. *)
Definition precheck (G : config) (d r : Z) : bool :=
  noon_verdict (DEPART_DAY_FILTER G) d
  && (one_way (ARGS G) || noon_verdict (RETURN_DAY_FILTER G) r).

Lemma day_filter_ok_noon (m : filter_map) (s : string) (d : Z) :
  fromisoformat s = Ok (DateTime (Date d) noon) →
  day_filter_ok m s = Ok (noon_verdict m d).
Proof.
  intros H. unfold noon_verdict. destruct (decide (m = ∅)) as [->|Hm].
  - apply day_filter_ok_empty.
  - rewrite (day_filter_ok_lookup m s _ Hm H). cbn [dt_date dt_time].
    by destruct (m !! weekday_abbr (Date d)) as [[a b]|].
Qed.

Lemma io_post_sends {X} (m : io X) (P : res X → list event → Prop) (w : world) :
  io_post m P → sends 0 0 m w.
Proof.
  intros (r & out & Hm & _). unfold sends. rewrite Hm. cbn.
  split; [lia|]. split; [done|]. eauto.
Qed.

Lemma display_offers_post (G : config) (offers : list offer) :
  io_post (display_offers G offers) (λ _ _, True).
Proof.
  unfold display_offers. apply io_post_bind.
  eapply io_post_mono; [|apply (display_loop_post G offers ∅ [])].
  - cbn beta. intros [seen|e] out _; [|done]. by apply io_post_ret.
  - intros k. split; [by intros ?%not_elem_of_empty|by intros ?%elem_of_nil].
Qed.

(** The part of [search_pair] after the query has been answered. *)
Definition keep_offers (G : config) (offers : option (list offer)) : io unit :=
  match offers with
  | None | Some [] => mret tt
  | Some offers =>
      sorted_offers ← lift (sort_offers offers (sort_by (ARGS G)));
      best_offer ← lift (index0 sorted_offers);
      _ ← display_offers G [best_offer];
      extend_matches offers
  end.

Lemma sends_world {X} (lo hi : nat) (m : io X) (w : world) :
  sends lo hi m w →
  ∃ r out k, m w = (r, World (stdout w ++ out) (ALL_MATCHES w) (requests w + k))
    ∧ (lo <= k <= hi)%nat.
Proof.
  unfold sends. destruct (m w) as [r [so ms n]]. cbn.
  intros (Hn & -> & out & ->). exists r, out, (n - requests w)%nat.
  split; [|lia]. do 2 f_equal. lia.
Qed.

Lemma keep_offers_world (G : config) (offers : option (list offer)) (w : world) :
  ∃ r out ms,
    keep_offers G offers w = (r, World (stdout w ++ out) ms (requests w)).
Proof.
  assert (Hw : ∀ r : res unit, ∃ r' out ms,
             (r, w) = (r', World (stdout w ++ out) ms (requests w))).
  { intros r. exists r, [], (ALL_MATCHES w). rewrite app_nil_r. by destruct w. }
  destruct offers as [[|o offers]|]; cbn [keep_offers]; try apply Hw.
  unfold mbind at 1, io_bind, lift at 1.
  destruct (sort_offers (o :: offers) (sort_by (ARGS G))) as [sorted_offers|e];
    [|apply Hw].
  unfold mbind at 1, io_bind, lift at 1.
  destruct (index0 sorted_offers) as [best|e]; [|apply Hw].
  unfold mbind at 1, io_bind.
  destruct (display_offers_post G [best]) as (r & out & Hm & _).
  rewrite Hm. destruct r as [[]|e]; cbn; eauto.
Qed.

Lemma query_world (http_get : nat → query → response) (G : config)
    (token orig dest a b : string) (e : event) (w : world) :
  ∃ r out ms k,
    (_ ← print e;
     offers ← call_amadeus http_get (ARGS G) token orig dest a b;
     keep_offers G offers) w
    = (r, World (stdout w ++ e :: out) ms (requests w + k))
    ∧ (1 <= k <= 3)%nat.
Proof.
  unfold mbind at 1, io_bind, print at 1.
  set (w1 := World _ _ _).
  unfold mbind at 1, io_bind.
  destruct (sends_world _ _ _ _
              (call_amadeus_sends http_get (ARGS G) token orig dest a b w1))
    as (r1 & out1 & k & -> & Hk).
  subst w1. cbn [stdout ALL_MATCHES requests]. rewrite <- app_assoc. cbn [app].
  destruct r1 as [offers|ex]; [|by eauto 10].
  match goal with |- context [keep_offers G offers ?w2] =>
    destruct (keep_offers_world G offers w2) as (r2 & out2 & ms & ->) end.
  cbn [stdout requests]. rewrite <- app_assoc. cbn [app]. by eauto 10.
Qed.

(** [run_search] decides at noon whether a date pair is queried.  For a
    pair whose texts read as the days [d] and [r]: when the departure
    filter rejects noon of [d], or, other than in one-way mode, the return
    filter rejects noon of [r], nothing happens: no line is printed, no
    request is sent, no match is recorded.  Otherwise the line for the pair
    is printed first and between one and three requests are sent.  The
    hours a filter allows thus matter before the query only in that they
    contain noon or not. *)
Theorem precheck_decides_query :
  ∀ (http_get : nat → query → response) (G : config) (token orig dest : string)
    (p : string * string) (d r : Z) (w : world),
    reads_as p d r →
    let run := search_pair http_get G token orig dest p tt w in
    if precheck G d r then
      (requests w < requests run.2 <= requests w + 3)%nat
      ∧ ∃ out, stdout run.2
               = stdout w ++ PrChecking orig dest p.1
                               (if one_way (ARGS G) then None else Some p.2) :: out
    else run = (Ok tt, w).
Proof.
  intros http_get G token orig dest [a b] d r w [Hd Hr] run.
  cbn [fst snd] in *.
  assert (Hrun : run
    = (d_ok ← lift (depart_ok G (a +:+ "T12:00:00"));
       if negb d_ok then mret tt else
       r_ok ← (if negb (one_way (ARGS G))
               then lift (return_ok G (b +:+ "T12:00:00")) else mret true);
       if negb r_ok then mret tt else
       _ ← print (PrChecking orig dest a
                    (if negb (one_way (ARGS G)) then Some b else None));
       offers ← call_amadeus http_get (ARGS G) token orig dest a b;
       keep_offers G offers) w) by reflexivity.
  rewrite Hrun. clear Hrun run. unfold depart_ok, return_ok, precheck.
  rewrite (day_filter_ok_noon _ _ d Hd), (day_filter_ok_noon _ _ r Hr).
  unfold mbind at 1, io_bind, lift at 1.
  destruct (noon_verdict (DEPART_DAY_FILTER G) d); cbn [negb andb]; [|done].
  assert (Hgo : ∀ run' : res unit * world,
    run' = (_ ← print (PrChecking orig dest a
                    (if negb (one_way (ARGS G)) then Some b else None));
            offers ← call_amadeus http_get (ARGS G) token orig dest a b;
            keep_offers G offers) w →
    (requests w < requests run'.2 <= requests w + 3)%nat
    ∧ ∃ out, stdout run'.2
             = stdout w ++ PrChecking orig dest a
                             (if one_way (ARGS G) then None else Some b) :: out).
  { intros run' ->.
    destruct (query_world http_get G token orig dest a b
                (PrChecking orig dest a
                   (if negb (one_way (ARGS G)) then Some b else None)) w)
      as (r0 & out & ms & k & -> & Hk).
    cbn. split; [lia|]. exists out. by destruct (one_way (ARGS G)). }
  destruct (one_way (ARGS G)) eqn:Eone; cbn [negb orb].
  - apply Hgo. rewrite ?Eone. reflexivity.
  - unfold mbind at 1, io_bind, lift at 1.
    destruct (noon_verdict (RETURN_DAY_FILTER G) r); cbn [negb]; [|done].
    apply Hgo. rewrite ?Eone. reflexivity.
Qed.

(** A Monday under a filter that allows Mondays from 22:00 to 02:00: the
    pair is not queried. *)
Lemma precheck_decides_query_witness :
  search_pair (λ _ _, {| status_code := 200; data := [] |}) monday_night
    "token" "LHR" "EVN" ("2025-06-02", "2025-06-05")%string tt empty_world
  = (Ok tt, empty_world).
Proof.
  apply (precheck_decides_query (λ _ _, {| status_code := 200; data := [] |})
           monday_night "token" "LHR" "EVN"
           ("2025-06-02", "2025-06-05")%string 739404 739407 empty_world).
  split; vm_compute; reflexivity.
Defined.

(** ** [run_search]: how many requests *)












(** ** [sort_offers]: a sorted rearrangement, or the first error *)

Lemma SFcompare_finite_Lt (s s' : bool) (m m' : positive) (e e' : Z) :
  SFcompare (S754_finite s m e) (S754_finite s' m' e') = Some Lt →
  SFcompare (S754_finite s' m' e') (S754_finite s m e) = Some Gt.
Proof.
  cbn. change (PosDef.Pos.compare_cont Eq m m') with (Pos.compare m m').
  change (PosDef.Pos.compare_cont Eq m' m) with (Pos.compare m' m).
  rewrite (Z.compare_antisym e e'), (Pos.compare_antisym m m').
  destruct s, s', (e ?= e'), (m ?= m')%positive; cbn; done.
Qed.

Lemma SFcompare_Lt (a b : spec_float) :
  SFcompare a b = Some Lt → SFcompare b a = Some Gt.
Proof.
  destruct a as [s|s| |s m e], b as [s'|s'| |s' m' e'];
    first [ apply SFcompare_finite_Lt
          | cbn; repeat match goal with x : bool |- _ => destruct x end; done ].
Qed.

Lemma float_ltb_asym (x y : float) :
  PrimFloat.ltb x y = true → PrimFloat.ltb y x = false.
Proof.
  rewrite !FloatAxioms.ltb_spec. unfold SFltb.
  destruct (SFcompare (Prim2SF x) (Prim2SF y)) as [[]|] eqn:E; try discriminate.
  by rewrite (SFcompare_Lt _ _ E).
Qed.

Lemma sf_same_sym (a b : spec_float) : sf_same a b → sf_same b a.
Proof.
  destruct a as [?|?| |???], b as [?|?| |???]; cbn; try done.
  by intros (-> & -> & ->).
Qed.

Lemma float_eqb_sym (x y : float) : PrimFloat.eqb x y = PrimFloat.eqb y x.
Proof.
  rewrite !FloatAxioms.eqb_spec. unfold SFeqb.
  destruct (SFcompare (Prim2SF x) (Prim2SF y)) as [[]|] eqn:E1;
    destruct (SFcompare (Prim2SF y) (Prim2SF x)) as [[]|] eqn:E2; try done;
    first [ apply SFcompare_Eq, sf_same_sym, SFcompare_Eq in E1
          | apply SFcompare_Eq, sf_same_sym, SFcompare_Eq in E2 ];
    congruence.
Qed.

Lemma keyval_eqb_sym (x y : keyval) : keyval_eqb x y = keyval_eqb y x.
Proof.
  destruct x as [x|x], y as [y|y]; cbn; try done.
  - apply float_eqb_sym.
  - unfold datetime_eqb, time_eqb. by rewrite !(Z.eqb_sym (_ x)).
Qed.

Lemma keyval_ltb_asym (x y : keyval) :
  keyval_ltb x y = true → keyval_ltb y x = false.
Proof.
  destruct x as [x|x], y as [y|y]; cbn; try done.
  - apply float_ltb_asym.
  - unfold datetime_ltb, date_ltb, time_ltb.
    rewrite orb_true_iff, orb_false_iff, !andb_true_iff, !andb_false_iff.
    rewrite !orb_true_iff, !orb_false_iff, !andb_true_iff, !andb_false_iff.
    rewrite !Z.ltb_lt, !Z.ltb_ge, !Z.eqb_eq, !Z.eqb_neq. lia.
Qed.

Lemma tuple_ltb_asym : ∀ a b : list keyval,
  tuple_ltb a b = true → tuple_ltb b a = false.
Proof.
  induction a as [|x a IH]; intros [|y b]; cbn; try done.
  rewrite (keyval_eqb_sym y x).
  destruct (keyval_eqb x y); [apply IH|apply keyval_ltb_asym].
Qed.

(** The offer [b] is not ranked before [a]: both have keys, and the key of
    [b] is not smaller than that of [a]. *)
Definition not_ranked_before (sort_keys : list string) (a b : offer) : Prop :=
  ∃ ka kb, key_fn sort_keys a = Ok ka ∧ key_fn sort_keys b = Ok kb
    ∧ tuple_ltb kb ka = false.

Lemma Sorted_map_snd {X Y} (R : X * Y → X * Y → Prop) (R' : Y → Y → Prop)
    (l : list (X * Y)) :
  (∀ p q, p ∈ l → q ∈ l → R p q → R' (snd p) (snd q)) →
  Sorted R l → Sorted R' (map snd l).
Proof.
  induction l as [|p l IH]; intros HR Hs; cbn; [constructor|].
  apply Sorted_inv in Hs as [Hs Hhd]. constructor.
  - apply IH; [|done]. intros ? ? ? ?. apply HR; by right.
  - destruct Hhd as [|q l' Hpq]; cbn; constructor.
    apply HR; [by left|by right; left|done].
Qed.

Lemma snd_zip_keys {X Y} (keys : list X) (l : list Y) :
  length keys = length l → map snd (zip keys l) = l.
Proof.
  revert l. induction keys as [|k keys IH]; intros [|y l]; cbn; try done.
  intros [= H]. by rewrite IH.
Qed.

(** When [sort_offers] returns, the result holds the offers it was given,
    each as often as before, and no offer in it has a smaller key tuple
    than the offer in front of it, whatever the sort keys are. *)
Theorem sort_offers_sorts :
  ∀ (offers out : list offer) (sort_keys : list string),
    sort_offers offers sort_keys = Ok out →
    out ≡ₚ offers ∧ Sorted (not_ranked_before sort_keys) out.
Proof.
  unfold sort_offers, sorted. intros offers out sort_keys H.
  apply bind_is_Ok in H as (keys & Hkeys & H). injection H as <-.
  apply map_res_Forall2 in Hkeys.
  assert (Hlen : length keys = length offers)
    by (symmetry; by eapply Forall2_length).
  assert (Hl : Forall (λ p, key_fn sort_keys (snd p) = Ok (fst p))
                 (zip keys offers)).
  { clear -Hkeys. induction Hkeys; cbn; constructor; done. }
  pose proof (sort_keyed_perm tuple_ltb (zip keys offers)) as Hperm.
  split.
  - rewrite Hperm. by rewrite snd_zip_keys.
  - rewrite <- Hperm in Hl. rewrite Forall_forall in Hl.
    eapply Sorted_map_snd; [|apply sort_keyed_sorted, tuple_ltb_asym].
    intros p q Hp Hq Hpq. exists (fst p), (fst q).
    split; [by apply Hl|]. split; [by apply Hl|]. exact Hpq.
Qed.

Lemma sort_offers_sorts_witness :
  [same_price_offer "PT2H"; same_price_offer "PT5H"]
  ≡ₚ [same_price_offer "PT5H"; same_price_offer "PT2H"]
  ∧ Sorted (not_ranked_before ["price"; "duration"])
      [same_price_offer "PT2H"; same_price_offer "PT5H"].
Proof.
  apply (sort_offers_sorts
           [same_price_offer "PT5H"; same_price_offer "PT2H"]).
  vm_compute. reflexivity.
Defined.

(** [sort_offers] raises exactly when the key of some offer cannot be
    computed, and then what the first such offer raises: the keys are
    computed in input order before anything is compared. *)
Theorem sort_offers_first_error :
  ∀ (offers : list offer) (sort_keys : list string) (e : exn),
    sort_offers offers sort_keys = Raise e
    ↔ ∃ before o after,
        offers = before ++ o :: after
        ∧ Forall (λ o', is_ok (key_fn sort_keys o') = true) before
        ∧ key_fn sort_keys o = Raise e.
Proof.
  intros offers sort_keys e. unfold sort_offers, sorted.
  induction offers as [|o offers IH]; cbn [map_res].
  - rewrite bind_Ok. split; [discriminate|].
    intros (before & o & after & H & _). by destruct before.
  - destruct (key_fn sort_keys o) as [k|e'] eqn:E.
    + rewrite bind_Ok.
      destruct (map_res (key_fn sort_keys) offers) as [ks|e'] eqn:Eks.
      * rewrite !bind_Ok. split; [discriminate|].
        intros (before & o' & after & H & Hb & Ho).
        destruct before as [|b before]; injection H as -> ->; [congruence|].
        apply Forall_cons in Hb as [_ Hb].
        rewrite bind_Ok in IH. apply proj2 in IH.
        by discriminate IH; exists before, o', after.
      * rewrite !bind_Raise in *. rewrite IH. split.
        -- intros (before & o' & after & -> & Hb & Ho).
           exists (o :: before), o', after. split; [done|].
           split; [|done]. constructor; [by rewrite E|done].
        -- intros (before & o' & after & H & Hb & Ho).
           destruct before as [|b before]; injection H as -> ->; [congruence|].
           apply Forall_cons in Hb as [_ Hb]. by exists before, o', after.
    + rewrite !bind_Raise. split.
      * intros [= ->]. exists [], o, offers. by repeat split.
      * intros (before & o' & after & H & Hb & Ho).
        destruct before as [|b before]; injection H as -> ->; [congruence|].
        apply Forall_cons in Hb as [Hb _]. rewrite E in Hb. discriminate.
Qed.

(** ** [stopovers_ok]: what is read, and when no limit is given *)

Lemma nothing_exceeds_infinity (wait : float) : exceeds wait infinity = false.
Proof.
  unfold exceeds. rewrite FloatAxioms.ltb_spec. unfold SFltb.
  change (Prim2SF infinity) with (S754_infinity false).
  by destruct (Prim2SF wait) as [[]|[]| |[] ? ?].
Qed.

Lemma forallb_const {X} (b : bool) (l : list X) :
  forallb (λ _, b) l = is_nil l || b.
Proof.
  induction l as [|x l IH]; [done|]. cbn [forallb is_nil orb].
  rewrite IH. by destruct b, (is_nil l).
Qed.

Lemma forallb_pointwise {X} (f g : X → bool) (l : list X) :
  (∀ x, f x = g x) → forallb f l = forallb g l.
Proof.
  intros H. induction l as [|x l IH]; [done|]. cbn. by rewrite H, IH.
Qed.

(** Without a stopover limit for the leg, [--max-*-stopover] absent or
    empty, no wait rejects an itinerary, however long it is: the check
    passes exactly when the itinerary has no connection or no more
    connections than [--max-stops]. *)
Theorem stopovers_without_limit :
  ∀ (A : Args) (kind : leg_kind) (itin : itinerary)
    (conns : list (datetime * datetime)),
    default [] (max_stopover A kind) = [] →
    map_res read_connection (connections (segments itin)) = Ok conns →
    stopovers_ok A itin kind
    = Ok (is_nil conns
          || (Z.of_nat (length (segments itin)) - 1 <=? max_stops A)).
Proof.
  intros A kind itin conns Hno Hconns. unfold stopovers_ok. cbv zeta.
  rewrite (stopovers_loop_spec A kind _ _ conns Hconns). f_equal.
  rewrite <- forallb_const. apply forallb_pointwise. intros c.
  unfold within_limit, connection_limit, stop_limits. rewrite Hno. cbv zeta.
  by rewrite nothing_exceeds_infinity.
Qed.

(** A wait of nearly two days, and no limit. *)
Lemma stopovers_without_limit_witness :
  stopovers_ok (no_limits 1)
    (via_vienna "2025-06-02T08:00:00" "2025-06-04T07:00:00") departure_leg
  = Ok (is_nil [(DateTime (Date 739404) (Time 8 0 0),
                 DateTime (Date 739406) (Time 7 0 0))]
        || (Z.of_nat 2 - 1 <=? 1)).
Proof.
  apply (stopovers_without_limit (no_limits 1) departure_leg
           (via_vienna "2025-06-02T08:00:00" "2025-06-04T07:00:00")).
  - reflexivity.
  - vm_compute. reflexivity.
Defined.

(** With more connections than [--max-stops] the itinerary is rejected at
    its first connection, after the two timestamps of that connection have
    been read: when they cannot be read the error is raised, the number of
    stops notwithstanding, and the later segments are not looked at. *)
Theorem too_many_stops_rejected_at_first_connection :
  ∀ (A : Args) (kind : leg_kind) (dur : string) (prev next : segment)
    (rest : list segment),
    max_stops A < Z.of_nat (length rest) + 1 →
    stopovers_ok A {| duration := dur; segments := prev :: next :: rest |} kind
    = match read_connection (prev, next) with
      | Ok _ => Ok false
      | Raise e => Raise e
      end.
Proof.
  intros A kind dur prev next rest Hmax. unfold stopovers_ok. cbv zeta.
  cbn [segments]. rewrite stopovers_loop_step. unfold read_connection.
  cbn [fst snd].
  destruct (fromisoformat (at_ (arrival prev))) as [a|e] eqn:Ea; [|done].
  rewrite !bind_Ok.
  destruct (fromisoformat (at_ (departure next))) as [b|e] eqn:Eb; [|done].
  rewrite !bind_Ok.
  rewrite hours_between_isoformat by (by eapply fromisoformat_valid).
  rewrite bind_Ok.
  replace (max_stops A <? Z.of_nat (length (prev :: next :: rest)) - 1)
    with true; [by rewrite orb_true_r|].
  symmetry. apply Z.ltb_lt. cbn [length]. lia.
Qed.

Lemma too_many_stops_rejected_at_first_connection_witness :
  stopovers_ok (no_limits 0)
    {| duration := "PT14H";
       segments :=
         [ {| departure := {| iataCode := "LHR"; at_ := "2025-06-02T05:00:00" |};
              arrival := {| iataCode := "VIE"; at_ := "2025-06-02T08:00:00" |} |};
           {| departure := {| iataCode := "VIE"; at_ := "2025-06-02T09:00:00" |};
              arrival := {| iataCode := "EVN"; at_ := "not a time" |} |} ] |}
    departure_leg
  = Ok false.
Proof.
  apply (too_many_stops_rejected_at_first_connection (no_limits 0) departure_leg
           "PT14H"
           {| departure := {| iataCode := "LHR"; at_ := "2025-06-02T05:00:00" |};
              arrival := {| iataCode := "VIE"; at_ := "2025-06-02T08:00:00" |} |}
           {| departure := {| iataCode := "VIE"; at_ := "2025-06-02T09:00:00" |};
              arrival := {| iataCode := "EVN"; at_ := "not a time" |} |}
           []).
  simpl. lia.
Defined.

(** ** [display_offers]: offers that are passed over *)

(** Unless [--allow-different-return-airport] is given, a round-trip offer
    that passes the departure filter is passed over in silence when its
    outbound leg ends at another airport than its return leg: the two
    final arrivals are compared, so an offer that flies out to an airport
    and back home from it is passed over. *)
Theorem different_final_airports_passed_over :
  ∀ (G : config) (o : offer) (seen : gset seen_key) (w : world)
    (to_itin from_itin : itinerary) (dep_seg ret_dep to_last ret_arr : segment),
    one_way (ARGS G) = false →
    allow_different_return_airport (ARGS G) = false →
    index0 (itineraries o) = Ok to_itin →
    index_last (itineraries o) = Ok from_itin →
    index0 (segments to_itin) = Ok dep_seg →
    index_last (segments to_itin) = Ok to_last →
    index0 (segments from_itin) = Ok ret_dep →
    index_last (segments from_itin) = Ok ret_arr →
    depart_ok G (at_ (departure dep_seg)) = Ok true →
    iataCode (arrival to_last) ≠ iataCode (arrival ret_arr) →
    display_offer G o seen w = (Ok seen, w).
Proof.
  intros G o seen w to_itin from_itin dep_seg ret_dep to_last ret_arr
    Hone Hallow Hto Hfrom Hdep Hlast Hrd Hra Hok Hne.
  apply String.eqb_neq in Hne.
  unfold display_offer, offer_filters, mbind, io_bind, lift, mret, io_ret.
  cbv zeta. rewrite Hone, Hallow. cbn [negb].
  rewrite Hto. cbv beta iota. rewrite Hfrom. cbv beta iota.
  rewrite Hdep. cbv beta iota. rewrite Hok. cbn [negb]. cbv beta iota.
  rewrite Hrd. cbv beta iota. rewrite Hra. cbv beta iota.
  rewrite Hlast. cbv beta iota. rewrite Hne. reflexivity.
Qed.

Lemma different_final_airports_passed_over_witness :
  display_offer
    {| ARGS := no_limits 1; DEPART_DAY_FILTER := ∅; RETURN_DAY_FILTER := ∅ |}
    trip_a ∅ empty_world
  = (Ok ∅, empty_world).
Proof.
  apply (different_final_airports_passed_over
           {| ARGS := no_limits 1; DEPART_DAY_FILTER := ∅; RETURN_DAY_FILTER := ∅ |}
           trip_a ∅ empty_world
           {| duration := "PT5H";
              segments :=
                [ {| departure := {| iataCode := "LHR"; at_ := "2025-06-01T10:00:00" |};
                     arrival := {| iataCode := "EVN"; at_ := "2025-06-01T18:00:00" |} |} ] |}
           {| duration := "PT5H30M";
              segments :=
                [ {| departure := {| iataCode := "EVN"; at_ := "2025-06-05T09:00:00" |};
                     arrival := {| iataCode := "LHR"; at_ := "2025-06-05T14:30:00" |} |} ] |}
           {| departure := {| iataCode := "LHR"; at_ := "2025-06-01T10:00:00" |};
              arrival := {| iataCode := "EVN"; at_ := "2025-06-01T18:00:00" |} |}
           {| departure := {| iataCode := "EVN"; at_ := "2025-06-05T09:00:00" |};
              arrival := {| iataCode := "LHR"; at_ := "2025-06-05T14:30:00" |} |}
           {| departure := {| iataCode := "LHR"; at_ := "2025-06-01T10:00:00" |};
              arrival := {| iataCode := "EVN"; at_ := "2025-06-01T18:00:00" |} |}
           {| departure := {| iataCode := "EVN"; at_ := "2025-06-05T09:00:00" |};
              arrival := {| iataCode := "LHR"; at_ := "2025-06-05T14:30:00" |} |});
    try reflexivity.
  discriminate.
Defined.

Lemma print_stopovers_run (segs : list segment) (w : world) :
  print_stopovers segs w
  = (result_of (print_stopovers segs),
     World (stdout w ++ output_of (print_stopovers segs))
       (ALL_MATCHES w) (requests w)).
Proof.
  apply (io_post_run (print_stopovers segs) (λ _ _, True)).
  by apply print_stopovers_post.
Qed.

(** The return summary is printed before the return filter is asked.  A
    round-trip offer that the return filter rejects is passed over, and no
    block is printed for it, but its return summary and the stopover lines
    of its return leg are on the output by then.  (The [continue] under the
    test of [return_ok] is read as the body of that test.) *)
Theorem return_summary_precedes_return_filter :
  ∀ (G : config) (o : offer) (seen : gset seen_key) (w : world)
    (to_itin from_itin : itinerary) (dep_seg ret_dep to_last ret_arr : segment)
    (t_dep t_arr : datetime),
    one_way (ARGS G) = false →
    index0 (itineraries o) = Ok to_itin →
    index_last (itineraries o) = Ok from_itin →
    index0 (segments to_itin) = Ok dep_seg →
    index_last (segments to_itin) = Ok to_last →
    index0 (segments from_itin) = Ok ret_dep →
    index_last (segments from_itin) = Ok ret_arr →
    depart_ok G (at_ (departure dep_seg)) = Ok true →
    allow_different_return_airport (ARGS G)
    || String.eqb (iataCode (arrival to_last)) (iataCode (arrival ret_arr)) = true →
    fromisoformat (at_ (departure ret_dep)) = Ok t_dep →
    fromisoformat (at_ (arrival ret_arr)) = Ok t_arr →
    result_of (print_stopovers (segments from_itin)) = Ok tt →
    return_ok G (at_ (departure ret_dep)) = Ok false →
    display_offer G o seen w
    = (Ok seen,
       World (stdout w
              ++ PrReturn (departure ret_dep) (arrival ret_arr)
                 :: output_of (print_stopovers (segments from_itin)))
         (ALL_MATCHES w) (requests w)).
Proof.
  intros G o seen w to_itin from_itin dep_seg ret_dep to_last ret_arr t_dep t_arr
    Hone Hto Hfrom Hdep Hlast Hrd Hra Hok Hair Htd Hta Hps Hret.
  unfold display_offer, offer_filters, mbind, io_bind, lift, mret, io_ret, print.
  cbv zeta. rewrite Hone. cbn [negb].
  rewrite Hto. cbv beta iota. rewrite Hfrom. cbv beta iota.
  rewrite Hdep. cbv beta iota. rewrite Hok. cbn [negb]. cbv beta iota.
  rewrite Hrd. cbv beta iota. rewrite Hra. cbv beta iota.
  assert (Hsame : negb (allow_different_return_airport (ARGS G)) = false
                  ∨ (negb (allow_different_return_airport (ARGS G)) = true
                     ∧ String.eqb (iataCode (arrival to_last))
                         (iataCode (arrival ret_arr)) = true)).
  { destruct (allow_different_return_airport (ARGS G)); [by left|by right]. }
  destruct Hsame as [-> | [-> Heq]];
    [|rewrite Hlast, Heq]; cbv beta iota; cbn [negb];
    rewrite Htd, Hta, print_stopovers_run, Hps; cbv beta iota; cbn [negb];
    rewrite Hret; cbn [negb stdout ALL_MATCHES requests];
    by rewrite <- app_assoc.
Qed.

(** A Thursday return under a return filter for Fridays only. *)
Definition friday_returns : config :=
  {| ARGS := ARGS (any_airport false);
     DEPART_DAY_FILTER := ∅;
     RETURN_DAY_FILTER := {[ "fri"%string := (None, None) ]} |}.

Lemma return_summary_precedes_return_filter_witness :
  display_offer friday_returns trip_a ∅ empty_world
  = (Ok ∅,
     World ([] ++ PrReturn {| iataCode := "EVN"; at_ := "2025-06-05T09:00:00" |}
                    {| iataCode := "LHR"; at_ := "2025-06-05T14:30:00" |}
                  :: output_of
                       (print_stopovers
                          [ {| departure := {| iataCode := "EVN";
                                               at_ := "2025-06-05T09:00:00" |};
                               arrival := {| iataCode := "LHR";
                                             at_ := "2025-06-05T14:30:00" |} |} ]))
       [] 0).
Proof.
  apply (return_summary_precedes_return_filter friday_returns trip_a ∅ empty_world
           {| duration := "PT5H";
              segments :=
                [ {| departure := {| iataCode := "LHR"; at_ := "2025-06-01T10:00:00" |};
                     arrival := {| iataCode := "EVN"; at_ := "2025-06-01T18:00:00" |} |} ] |}
           {| duration := "PT5H30M";
              segments :=
                [ {| departure := {| iataCode := "EVN"; at_ := "2025-06-05T09:00:00" |};
                     arrival := {| iataCode := "LHR"; at_ := "2025-06-05T14:30:00" |} |} ] |}
           {| departure := {| iataCode := "LHR"; at_ := "2025-06-01T10:00:00" |};
              arrival := {| iataCode := "EVN"; at_ := "2025-06-01T18:00:00" |} |}
           {| departure := {| iataCode := "EVN"; at_ := "2025-06-05T09:00:00" |};
              arrival := {| iataCode := "LHR"; at_ := "2025-06-05T14:30:00" |} |}
           {| departure := {| iataCode := "LHR"; at_ := "2025-06-01T10:00:00" |};
              arrival := {| iataCode := "EVN"; at_ := "2025-06-01T18:00:00" |} |}
           {| departure := {| iataCode := "EVN"; at_ := "2025-06-05T09:00:00" |};
              arrival := {| iataCode := "LHR"; at_ := "2025-06-05T14:30:00" |} |}
           (DateTime (Date 739407) (Time 9 0 0))
           (DateTime (Date 739407) (Time 14 30 0)));
    try reflexivity; vm_compute; reflexivity.
Defined.

(** ** [parse_day_time_filters]: what a filter map holds *)












(** ** [display_offers]: how many blocks *)

Lemma first_per_key_length (l : list (seen_key * offer)) : ∀ before,
  (length (first_per_key before l) <= length l)%nat.
Proof.
  induction l as [|[k o] l IH]; intros before; cbn [first_per_key length]; [lia|].
  specialize (IH (k :: before)).
  destruct (decide (k ∈ before)); cbn [length]; lia.
Qed.

Lemma passed_length (G : config) (offers : list offer) :
  (length (passed G offers) <= length offers)%nat.
Proof.
  unfold passed. induction offers as [|o offers IH]; cbn; [lia|].
  destruct (verdict G o) as [[locals|]|e]; cbn; lia.
Qed.

Lemma display_offers_blocks (G : config) (offers : list offer) :
  (length (offers_shown (output_of (display_offers G offers)))
   <= length offers)%nat.
Proof.
  assert (H : io_post (display_offers G offers)
                (λ _ out, (length (offers_shown out) <= length offers)%nat)).
  { unfold display_offers. apply io_post_bind.
    eapply io_post_mono; [|apply (display_loop_post G offers ∅ [])].
    - cbn beta. intros r out [Hp _].
      assert (length (offers_shown out) <= length offers)%nat as Hlen.
      { apply prefix_length in Hp. rewrite length_map in Hp.
        pose proof (first_per_key_length (passed G offers) []).
        pose proof (passed_length G offers). lia. }
      destruct r as [seen|e]; [|done].
      apply io_post_ret. by rewrite app_nil_r.
    - intros k. split; [by intros ?%not_elem_of_empty|by intros ?%elem_of_nil]. }
  by apply io_post_run in H as [H _].
Qed.

(** [display_offers] prints at most one block for each offer it is given,
    however it ends.  So a query shows at most one offer, the best one, and
    the summary at the end shows at most [--max-results] blocks of the
    ranked matches when that number is not negative; with a negative
    number it shows fewer blocks than there are matches. *)
Theorem display_offers_block_bound :
  ∀ (G : config) (offers : list offer) (n : Z),
    let blocks (l : list offer) :=
      length (offers_shown (output_of (display_offers G l))) in
    (blocks offers <= length offers)%nat
    ∧ (∀ o, blocks [o] <= 1)%nat
    ∧ (0 <= n → (blocks (slice_to n offers) <= Z.to_nat n)%nat)
    ∧ (n < 0 → offers ≠ [] → (blocks (slice_to n offers) < length offers)%nat).
Proof.
  intros G offers n blocks. subst blocks. cbv beta.
  split; [apply display_offers_blocks|].
  split; [intros o; apply (display_offers_blocks G [o])|].
  split.
  - intros Hn. pose proof (display_offers_blocks G (slice_to n offers)) as H.
    unfold slice_to in *. destruct (Z.leb_spec 0 n); [|lia].
    rewrite length_take in H. lia.
  - intros Hn Hne. pose proof (display_offers_blocks G (slice_to n offers)) as H.
    unfold slice_to in *. destruct (Z.leb_spec 0 n); [lia|].
    rewrite length_take in H.
    destruct offers as [|o offers]; [done|]. cbn [length] in *. lia.
Qed.

(** ** One-way mode and the return filter *)

(** A one-way search under a return filter for Fridays only runs as it
    does without the filter. *)
Lemma one_way_ignores_return_filter_witness :
  run_search (Date 739000) (λ _, Ok 1) (Ok "token")
    (λ _ _, {| status_code := 200; data := [] |})
    (with_return_filter (any_airport true) {[ "fri"%string := (None, None) ]})
    empty_world
  = run_search (Date 739000) (λ _, Ok 1) (Ok "token")
      (λ _ _, {| status_code := 200; data := [] |})
      (any_airport true) empty_world.
Proof.
  apply (one_way_ignores_return_filter (Date 739000) (λ _, Ok 1) (Ok "token")
           (λ _ _, {| status_code := 200; data := [] |})
           (any_airport true) {[ "fri"%string := (None, None) ]} empty_world).
  reflexivity.
Defined.
